(** * RESTREND pointwise (trends.earth-gee): a per-pixel model of
    [restrend_pointwise/src/main.py] and the properties of its pipeline.

    The program builds Earth Engine expressions; every raster operation it
    uses acts independently at each pixel.  The model therefore fixes one
    pixel and follows an [ee.Image] as the list of its bands at that pixel,
    a band being a name and a value that is either valid or masked.
    Pixel values are rationals kept in lowest terms (an exact idealisation
    of the doubles Earth Engine computes with).  Errors that Python or
    Earth Engine raise are explicit results.

    The Earth Engine operations follow the API reference:
    - binary operators mask the output where an input is masked, use a
      one-band image against every band of the other, and drop properties;
    - [where] replaces the input where the test is valid and nonzero and
      leaves it elsewhere, masked input pixels staying masked;
    - [updateMask] keeps a pixel where the mask is valid and positive,
      [unmask] fills masked pixels;
    - reducers over a collection see the valid inputs only, give a masked
      pixel when there is none, and give an image without bands on an empty
      collection;
    - [select] fails on a missing band, [rename] on a wrong number of
      names, [List.get] and [Array.get] outside their bounds. *)

From Stdlib Require Import String Ascii List ZArith QArith Qabs Qreduction Lia Bool.
From Stdlib Require Finite Sorted.
Import ListNotations.
Local Open Scope string_scope.
Local Open Scope list_scope.
Local Open Scope Z_scope.

(** ** Errors and the error monad *)

Inductive error : Type :=
| AttributeError          (* Python: [.get] / [.lower] on a value without it *)
| IndexError              (* Python: [[0]] on an empty sequence *)
| KeyError                (* Python: [[0]] on a dict *)
| TypeError               (* Python: [[0]] on a value that is not subscriptable *)
| BandNotFound            (* EE: a band selector matches no band *)
| BandCountMismatch       (* EE: [rename] with a wrong number of names *)
| ListIndexOutOfBounds    (* EE: [List.get] outside the list *)
| ArrayIndexOutOfBounds.  (* EE: [Array.get] outside the array *)

Inductive result (A : Type) : Type :=
| Ok (a : A)
| Err (e : error).
Arguments Ok {A} a.
Arguments Err {A} e.

Definition bind {A B} (c : result A) (k : A -> result B) : result B :=
  match c with
  | Ok a => k a
  | Err e => Err e
  end.

Declare Scope result_scope.
Delimit Scope result_scope with result.
Notation "x <- c ;; k" := (bind c (fun x => k))
  (at level 61, c at next level, right associativity) : result_scope.
Notation "' pat <- c ;; k" := (bind c (fun x => match x with pat => k end))
  (at level 61, pat pattern, c at next level, right associativity) : result_scope.
Local Open Scope result_scope.

Definition is_err {A} (r : result A) : Prop :=
  match r with Ok _ => False | Err _ => True end.

Definition is_ok {A} (r : result A) : Prop :=
  match r with Ok _ => True | Err _ => False end.

(** [for x in l: acc = f(acc, x)], stopping at the first error. *)
Fixpoint foldM {A B} (f : B -> A -> result B) (l : list A) (acc : B) : result B :=
  match l with
  | [] => Ok acc
  | x :: l' => acc' <- f acc x ;; foldM f l' acc'
  end.

Fixpoint mapM {A B} (f : A -> result B) (l : list A) : result (list B) :=
  match l with
  | [] => Ok []
  | x :: l' => y <- f x ;; ys <- mapM f l' ;; Ok (y :: ys)
  end.

(** Python's [range(a, b)]. *)
Definition pyrange (a b : Z) : list Z :=
  map (fun i => a + Z.of_nat i) (seq 0 (Z.to_nat (b - a))).

(** ** Pixel values *)

(** A pixel of one band: [None] is a masked (invalid) pixel. *)
Definition pixel : Type := option Q.

Definition lift1 (f : Q -> Q) (p : pixel) : pixel := option_map f p.

Definition lift2 (f : Q -> Q -> Q) (p q : pixel) : pixel :=
  match p, q with
  | Some x, Some y => Some (f x y)
  | _, _ => None
  end.

Definition qadd (x y : Q) : Q := Qred (x + y).
Definition qsub (x y : Q) : Q := Qred (x - y).
Definition qmul (x y : Q) : Q := Qred (x * y).
Definition qdiv (x y : Q) : Q := Qred (x / y).
Definition qabs (x : Q) : Q := Qabs x.

Definition qbool (b : bool) : Q := if b then 1%Q else 0%Q.
Definition qltb (x y : Q) : bool := negb (Qle_bool y x).
Definition qlt (x y : Q) : Q := qbool (qltb x y).
Definition qgt (x y : Q) : Q := qbool (qltb y x).
Definition qlte (x y : Q) : Q := qbool (Qle_bool x y).
Definition qeq (x y : Q) : Q := qbool (Qeq_bool x y).

Definition qsum (vs : list Q) : Q := fold_left qadd vs 0%Q.

(** Insertion sort, for the median reducer. *)
Fixpoint qinsert (x : Q) (l : list Q) : list Q :=
  match l with
  | [] => [x]
  | y :: l' => if Qle_bool x y then x :: l else y :: qinsert x l'
  end.

Definition qsort (l : list Q) : list Q := fold_right qinsert [] l.

(** Reducers at a pixel receive the valid inputs only; with no valid input
    the output pixel is masked. *)
Definition r_mean (vs : list Q) : pixel :=
  match vs with
  | [] => None
  | _ => Some (qdiv (qsum vs) (inject_Z (Z.of_nat (length vs))))
  end.

Definition r_sum (vs : list Q) : pixel :=
  match vs with
  | [] => None
  | _ => Some (qsum vs)
  end.

Definition r_median (vs : list Q) : pixel :=
  let s := qsort vs in
  let n := length s in
  match n with
  | O => None
  | _ =>
      if Nat.odd n then nth_error s (Nat.div2 n)
      else lift2 (fun a b => qdiv (qadd a b) 2%Q)
             (nth_error s (Nat.div2 n - 1)) (nth_error s (Nat.div2 n))
  end.

(** ** Images and collections at one pixel *)

Definition band : Type := (string * pixel)%type.

(** An image at the pixel: its bands in order, its ['year'] property and its
    acquisition date [(year, month, day)] ([system:time_start]). *)
Record Image : Type := mkImage {
  bands : list band;
  year : option Z;
  time_start : option (Z * Z * Z)
}.

Definition ImageCollection : Type := list Image.

(** [ee.Image(c)]: one band named [constant]. *)
Definition constant (c : Q) : Image := mkImage [("constant", Some c)] None None.

(** [img.set({'year': y})]. *)
Definition set_year (img : Image) (y : option Z) : Image :=
  mkImage (bands img) y (time_start img).

Fixpoint find_band (n : string) (bs : list band) : option band :=
  match bs with
  | [] => None
  | (m, p) :: bs' => if String.eqb m n then Some (m, p) else find_band n bs'
  end.

(** [img.select(names)]: the named bands in the order asked for; the
    properties of the image are kept. *)
Definition select (img : Image) (names : list string) : result Image :=
  bs <- mapM (fun n => match find_band n (bands img) with
                       | Some b => Ok b
                       | None => Err BandNotFound
                       end) names ;;
  Ok (mkImage bs (year img) (time_start img)).

(** [img.select(indices)], bands chosen by position. *)
Definition select_idx (img : Image) (idx : list Z) : result Image :=
  bs <- mapM (fun i => if i <? 0 then Err BandNotFound
                       else match nth_error (bands img) (Z.to_nat i) with
                            | Some b => Ok b
                            | None => Err BandNotFound
                            end) idx ;;
  Ok (mkImage bs (year img) (time_start img)).

(** [collection.select(names)]. *)
Definition select_coll (c : ImageCollection) (names : list string)
  : result ImageCollection :=
  mapM (fun img => select img names) c.

(** [img.rename(names)]: the number of names must be the number of bands. *)
Definition rename (img : Image) (names : list string) : result Image :=
  if Nat.eqb (length names) (length (bands img))
  then Ok (mkImage (combine names (map snd (bands img))) (year img) (time_start img))
  else Err BandCountMismatch.

(** [a.addBands(b)].  Earth Engine renames an added band whose name is
    already taken; every [addBands] of the program is renamed by position
    right after, so the names given here are never read. *)
Definition addBands (a b : Image) : Image :=
  mkImage (bands a ++ bands b) (year a) (time_start a).

(** Band matching of the binary operators: a one-band image is used against
    every band of the other, otherwise bands are paired in order. *)
Definition band_zip (f : pixel -> pixel -> pixel) (a b : list band) : list band :=
  match a, b with
  | _, [(_, q)] => map (fun '(n, p) => (n, f p q)) a
  | [(_, p)], _ => map (fun '(n, q) => (n, f p q)) b
  | _, _ => map (fun '((n, p), (_, q)) => (n, f p q)) (combine a b)
  end.

(** Binary operators mask the output where either input is masked, and do
    not carry the properties of their inputs. *)
Definition binop (f : Q -> Q -> Q) (a b : Image) : Image :=
  mkImage (band_zip (lift2 f) (bands a) (bands b)) None None.

Definition add := binop qadd.
Definition subtract := binop qsub.
Definition multiply := binop qmul.
Definition divide := binop qdiv.
Definition lt := binop qlt.
Definition gt := binop qgt.
Definition lte := binop qlte.
Definition eq_ := binop qeq.

Definition unop (f : Q -> Q) (a : Image) : Image :=
  mkImage (map (fun '(n, p) => (n, lift1 f p)) (bands a)) None None.

Definition abs := unop qabs.

(** The band of [bs] used against band [i] of another image. *)
Definition band_at (bs : list band) (i : nat) : pixel :=
  match bs with
  | [(_, p)] => p
  | _ => match nth_error bs i with
         | Some (_, p) => p
         | None => None
         end
  end.

Definition enumerate {A} (l : list A) : list (nat * A) :=
  combine (seq 0 (length l)) l.

(** [input.where(test, value)] at a pixel: where [test] is valid and
    nonzero the output is [value]; where [test] is masked the input is
    kept; where the input is masked nothing is done. *)
Definition where_px (inp tst : pixel) (value : Q) : pixel :=
  match inp with
  | None => None
  | Some x =>
      match tst with
      | Some t => if Qeq_bool t 0 then Some x else Some value
      | None => Some x
      end
  end.

Definition where_ (input test : Image) (value : Q) : Image :=
  mkImage (map (fun '(i, (n, p)) => (n, where_px p (band_at (bands test) i) value))
             (enumerate (bands input)))
          (year input) (time_start input).

(** [img.updateMask(mask)] at a pixel: the pixel stays valid only where it
    was valid and the mask value is valid and positive. *)
Definition updateMask_px (p m : pixel) : pixel :=
  match p, m with
  | Some x, Some v => if qltb 0 v then Some x else None
  | _, _ => None
  end.

Definition updateMask (img mask : Image) : Image :=
  mkImage (map (fun '(i, (n, p)) => (n, updateMask_px p (band_at (bands mask) i)))
             (enumerate (bands img)))
          (year img) (time_start img).

(** [img.unmask(value)]. *)
Definition unmask_px (p : pixel) (value : Q) : pixel :=
  match p with
  | Some x => Some x
  | None => Some value
  end.

Definition unmask (img : Image) (value : Q) : Image :=
  mkImage (map (fun '(n, p) => (n, unmask_px p value)) (bands img))
          (year img) (time_start img).

(** The valid values of band [i] across a collection. *)
Definition column (c : ImageCollection) (i : nat) : list Q :=
  flat_map (fun img => match nth_error (bands img) i with
                       | Some (_, Some v) => [v]
                       | _ => []
                       end) c.

(** [collection.reduce(reducer)] for a one-input reducer: band by band.
    An empty collection reduces to an image without bands. *)
Definition reduce_coll (suffix : string) (r : list Q -> pixel)
           (c : ImageCollection) : Image :=
  match c with
  | [] => mkImage [] None None
  | img :: _ =>
      mkImage (map (fun '(i, (n, _)) => (String.append n suffix, r (column c i)))
                 (enumerate (bands img)))
              None None
  end.

(** [collection.reduce(ee.Reducer.mean())], [collection.median()],
    [collection.sum()]. *)
Definition reduce_mean := reduce_coll "_mean" r_mean.
Definition median := reduce_coll EmptyString r_median.
Definition sum := reduce_coll EmptyString r_sum.

(** [img.reduce(ee.Reducer.mean())]: across the bands of one image. *)
Definition reduce_bands_mean (img : Image) : Image :=
  mkImage [("mean", r_mean (flat_map (fun '(_, p) => match p with
                                                     | Some v => [v]
                                                     | None => []
                                                     end) (bands img)))]
          None None.

(** [collection.filterDate(start, end)]: start inclusive, end exclusive. *)
Definition date_ltb (a b : Z * Z * Z) : bool :=
  let '(ya, ma, da) := a in
  let '(yb, mb, db) := b in
  (ya <? yb) || ((ya =? yb) && ((ma <? mb) || ((ma =? mb) && (da <? db)))).

Definition in_dates (start end_ : Z * Z * Z) (img : Image) : bool :=
  match time_start img with
  | Some d => negb (date_ltb d start) && date_ltb d end_
  | None => false
  end.

Definition filterDate (c : ImageCollection) (start end_ : Z * Z * Z)
  : ImageCollection :=
  filter (in_dates start end_) c.

(** [collection.filter(ee.Filter.eq('year', k))]. *)
Definition has_year (k : Z) (img : Image) : bool :=
  match year img with
  | Some y => y =? k
  | None => false
  end.

Definition filter_year (c : ImageCollection) (k : Z) : ImageCollection :=
  filter (has_year k) c.

(** [ee.Reducer.linearFit()] at a pixel, over the images whose two bands
    (x first, y second) are both valid: ordinary least squares in closed
    form, with outputs [scale] and [offset].  Fewer than two valid pairs,
    or no variance in x, give masked outputs (section 4.2 of the
    specification). *)
Definition xy_pairs (c : ImageCollection) : list (Q * Q) :=
  flat_map (fun img => match bands img with
                       | [(_, Some x); (_, Some y)] => [(x, y)]
                       | _ => []
                       end) c.

Definition linearFit_px (ps : list (Q * Q)) : pixel * pixel :=
  let n := inject_Z (Z.of_nat (length ps)) in
  let sx := qsum (map fst ps) in
  let sy := qsum (map snd ps) in
  let sxx := qsum (map (fun p => qmul (fst p) (fst p)) ps) in
  let sxy := qsum (map (fun p => qmul (fst p) (snd p)) ps) in
  let d := qsub (qmul n sxx) (qmul sx sx) in
  if (length ps <? 2)%nat || Qeq_bool d 0 then (None, None)
  else
    let scale := qdiv (qsub (qmul n sxy) (qmul sx sy)) d in
    (Some scale, Some (qdiv (qsub sy (qmul scale sx)) n)).

Definition reduce_linearFit (c : ImageCollection) : Image :=
  match c with
  | [] => mkImage [] None None
  | _ :: _ =>
      let '(s, o) := linearFit_px (xy_pairs c) in
      mkImage [("scale", s); ("offset", o)] None None
  end.

(** [ee.List.get(i)]. *)
Definition list_get {A} (l : list A) (i : Z) : result A :=
  if i <? 0 then Err ListIndexOutOfBounds
  else match nth_error l (Z.to_nat i) with
       | Some x => Ok x
       | None => Err ListIndexOutOfBounds
       end.

(** [ee.Array.get([i])] on a one-dimensional array. *)
Definition array_get (a : list Z) (i : Z) : result Z :=
  if i <? 0 then Err ArrayIndexOutOfBounds
  else match nth_error a (Z.to_nat i) with
       | Some x => Ok x
       | None => Err ArrayIndexOutOfBounds
       end.

(** ** The area of interest: GeoJSON as Python sees it after [json.loads] *)

Local Unset Elimination Schemes.
Inductive json : Type :=
| JNull
| JBool (b : bool)
| JNum (q : Q)
| JStr (s : string)
| JArr (l : list json)
| JObj (kv : list (string * json)).
Local Set Elimination Schemes.

Fixpoint assoc (k : string) (kv : list (string * json)) : option json :=
  match kv with
  | [] => None
  | (k', v) :: kv' => if String.eqb k' k then Some v else assoc k kv'
  end.

(** [d.get(k)]: the value, or [None] when the key is absent. *)
Definition dict_get (d : json) (k : string) : result json :=
  match d with
  | JObj kv => Ok (match assoc k kv with Some v => v | None => JNull end)
  | _ => Err AttributeError
  end.

(** [v[0]]. *)
Definition subscript0 (v : json) : result json :=
  match v with
  | JArr (x :: _) => Ok x
  | JArr [] => Err IndexError
  | JStr (String c _) => Ok (JStr (String c EmptyString))
  | JStr EmptyString => Err IndexError
  | JObj _ => Err KeyError
  | _ => Err TypeError
  end.

(** [v is not None]. *)
Definition is_not_None (v : json) : bool :=
  match v with
  | JNull => false
  | _ => true
  end.

Definition get_coords (geojson : json) : result json :=
  features <- dict_get geojson "features" ;;
  if is_not_None features then
    features <- dict_get geojson "features" ;;
    feature <- subscript0 features ;;
    geometry <- dict_get feature "geometry" ;;
    dict_get geometry "coordinates"
  else
    geometry <- dict_get geojson "geometry" ;;
    if is_not_None geometry then
      geometry <- dict_get geojson "geometry" ;;
      dict_get geometry "coordinates"
    else
      dict_get geojson "coordinates".

Definition get_type (geojson : json) : result json :=
  features <- dict_get geojson "features" ;;
  if is_not_None features then
    features <- dict_get geojson "features" ;;
    feature <- subscript0 features ;;
    geometry <- dict_get feature "geometry" ;;
    dict_get geometry "type"
  else
    geometry <- dict_get geojson "geometry" ;;
    if is_not_None geometry then
      geometry <- dict_get geojson "geometry" ;;
      dict_get geometry "type"
    else
      dict_get geojson "type".

Definition lower_ascii (c : ascii) : ascii :=
  let n := nat_of_ascii c in
  if ((65 <=? n) && (n <=? 90))%nat then ascii_of_nat (n + 32) else c.

Fixpoint lower (s : string) : string :=
  match s with
  | EmptyString => EmptyString
  | String c s' => String (lower_ascii c) (lower s')
  end.

Inductive Geometry : Type :=
| MultiPolygon (coords : json)
| Polygon (coords : json).

Definition get_region (geom : json) : result Geometry :=
  poly <- get_coords geom ;;
  ptype <- get_type geom ;;
  match ptype with
  | JStr t =>
      if String.eqb (lower t) "multipolygon" then Ok (MultiPolygon poly)
      else Ok (Polygon poly)
  | _ => Err AttributeError
  end.

(** ** The program *)

(** [mann_kendall_stat(imageCollection)], loop bounds as written. *)
Definition mann_kendall_stat (imageCollection : ImageCollection) : result Image :=
  let TimeSeriesList := firstn 50 imageCollection in
  let NumberOfItems := Z.of_nat (length TimeSeriesList) in
  '(ConcordantArray, DiscordantArray) <-
    foldM (fun '(ConcordantArray, DiscordantArray) k =>
             CurrentImage <- list_get TimeSeriesList k ;;
             foldM (fun '(ConcordantArray, DiscordantArray) l =>
                      nextImage <- list_get TimeSeriesList l ;;
                      let Concordant := lt CurrentImage nextImage in
                      let Discordant := gt CurrentImage nextImage in
                      Ok (ConcordantArray ++ [Concordant],
                          DiscordantArray ++ [Discordant]))
                   (pyrange (k + 1) (NumberOfItems - 1))
                   (ConcordantArray, DiscordantArray))
          (pyrange 0 (NumberOfItems - 2))
          ([], []) ;;
  let ConcordantSum := sum ConcordantArray in
  let DiscordantSum := sum DiscordantArray in
  let MKSstat := subtract ConcordantSum DiscordantSum in
  Ok MKSstat.

(** The quality filter mapped over the MODIS collection. *)
Definition qa_filter (img : Image) : result Image :=
  mask <- select img ["SummaryQA"] ;;
  qa <- select img ["SummaryQA"] ;;
  let mask := where_ mask (eq_ qa (constant (-1))) 0 in
  qa <- select img ["SummaryQA"] ;;
  let mask := where_ mask (eq_ qa (constant 0)) 1 in
  qa <- select img ["SummaryQA"] ;;
  let mask := where_ mask (eq_ qa (constant 1)) 1 in
  qa <- select img ["SummaryQA"] ;;
  let mask := where_ mask (eq_ qa (constant 2)) 0 in
  qa <- select img ["SummaryQA"] ;;
  let mask := where_ mask (eq_ qa (constant 3)) 0 in
  ndvi <- select img ["NDVI"] ;;
  let masked := updateMask ndvi mask in
  Ok masked.

(** Annual means of the observed index: [for k in range(year_start, year_end)]. *)
Definition int_16d_1yr_o (year_start year_end : Z) (ndvi_coll : ImageCollection)
  : result ImageCollection :=
  foldM (fun img_coll k =>
           sel <- select_coll ndvi_coll ["NDVI"] ;;
           let ndvi_img :=
             multiply (reduce_mean (filterDate sel (k, 1, 1) (k, 12, 31)))
                      (constant (1 # 10000)) in
           img <- rename (addBands ndvi_img (constant (inject_Z k))) ["ndvi"; "year"] ;;
           Ok (img_coll ++ [set_year img (Some k)]))
        (pyrange year_start year_end) [].

(** Annual means of the climate stack: 33 windows of 24 bands. *)
Definition int_15d_1yr_clim (img_stack : Image) : result ImageCollection :=
  foldM (fun img_coll k =>
           sel <- select_idx img_stack (pyrange ((k - 1) * 24) (k * 24)) ;;
           ndvi_lyr <- rename (reduce_bands_mean sel) ["ndvi"] ;;
           Ok (img_coll ++ [set_year ndvi_lyr (Some (1981 + k))]))
        (pyrange 1 34) [].

(** The paired stack [ndvi, clim, year], one image per year of the range. *)
Definition stack (ndvi_1yr_o clim_1yr_o : ImageCollection) (year_start year_end : Z)
  : result ImageCollection :=
  foldM (fun img_coll k =>
           ndvi_sel <- select_coll (filter_year ndvi_1yr_o k) ["ndvi"] ;;
           let ndvi := median ndvi_sel in
           clim_sel <- select_coll (filter_year clim_1yr_o k) ["ndvi"] ;;
           let clim := median clim_sel in
           img <- rename (addBands ndvi (addBands clim (constant (inject_Z k))))
                         ["ndvi"; "clim"; "year"] ;;
           Ok (img_coll ++ [set_year img (Some k)]))
        (pyrange year_start year_end) [].

(** Predicted index of one year, appended to the list being iterated. *)
Definition ndvi_clim_p (lf_clim_ndvi : Image) (image : Image) (list : ImageCollection)
  : result ImageCollection :=
  offset <- select lf_clim_ndvi ["offset"] ;;
  scale <- select lf_clim_ndvi ["scale"] ;;
  let ndvi := set_year (add offset (multiply scale image)) (year image) in
  Ok (list ++ [ndvi]).

(** [collection.iterate(f, first)]. *)
Definition iterate (f : Image -> ImageCollection -> result ImageCollection)
           (c : ImageCollection) (first : ImageCollection) : result ImageCollection :=
  foldM (fun acc img => f img acc) c first.

(** Residual of one year: observed minus predicted. *)
Definition ndvi_clim_r_img (coll_1yr_o ndvi_1yr_p : ImageCollection) (yr : Z)
  : result Image :=
  o_sel <- select_coll (filter_year coll_1yr_o yr) ["ndvi"] ;;
  let ndvi_o := median o_sel in
  let ndvi_p := median (filter_year ndvi_1yr_p yr) in
  let ndvi_r := addBands (constant (inject_Z yr)) (subtract ndvi_o ndvi_p) in
  rename ndvi_r ["year"; "ndvi_res"].

Definition ndvi_clim_r_coll (coll_1yr_o ndvi_1yr_p : ImageCollection)
           (year_start year_end : Z) : result ImageCollection :=
  foldM (fun res_list i =>
           res_image <- ndvi_clim_r_img coll_1yr_o ndvi_1yr_p i ;;
           Ok (res_list ++ [res_image]))
        (pyrange year_start year_end) [].

(** Critical values of Kendall's S at a significance of 0.05. *)
Definition coefficients : list Z :=
  [4; 6; 9; 11; 14; 16; 19; 21; 24; 26; 31; 33; 36;
   40; 43; 47; 50; 54; 59; 63; 66; 70; 75; 79; 84;
   88; 93; 97; 102; 106; 111; 115; 120; 126; 131;
   137; 142].

Definition period (year_start year_end : Z) : Z := year_end - year_start + 1.

(** [kendall = coefficients.get([period - 4])]. *)
Definition kendall (period : Z) : result Z :=
  array_get coefficients (period - 4).

Definition nodata : Q := (-99999)%Q.

(** The [image] entry of the export: the slope of the residual fit, masked
    by the trend test and by the negligible-slope test, then unmasked. *)
Definition export_image (lf_prest mk_trend : Image) (kendall : Z) : result Image :=
  scale <- select lf_prest ["scale"] ;;
  let img := where_ scale (lte (abs mk_trend) (constant (inject_Z kendall))) nodata in
  scale <- select lf_prest ["scale"] ;;
  let img := where_ img (lte (abs scale) (constant (1 # 1000000))) nodata in
  Ok (unmask img nodata).

Record Export : Type := mkExport {
  image : Image;
  description : string;
  fileNamePrefix : string;
  bucket : string;
  maxPixels : Z;
  scale : Z;
  region : json
}.

(** [restrend_pointwise], up to the export request it hands to the task.
    [modis] is the collection [MODIS/006/MOD13Q1] and [clim_15d_o] the
    soil-moisture image, both as seen at the pixel. *)
Definition restrend_pointwise (modis : ImageCollection) (clim_15d_o : Image)
           (year_start year_end : Z) (geojson : json) (EXECUTION_ID : string)
  : result Export :=
  region <- get_coords geojson ;;
  modis_16d_o <- mapM qa_filter modis ;;
  ndvi_1yr_o <- int_16d_1yr_o year_start year_end modis_16d_o ;;
  clim_1yr_o <- int_15d_1yr_clim (divide clim_15d_o (constant 10000)) ;;
  coll_1yr_o <- stack ndvi_1yr_o clim_1yr_o year_start year_end ;;
  xy <- select_coll coll_1yr_o ["clim"; "ndvi"] ;;
  let lf_clim_ndvi := reduce_linearFit xy in
  clim <- select_coll coll_1yr_o ["clim"] ;;
  ndvi_1yr_p <- iterate (ndvi_clim_p lf_clim_ndvi) clim [] ;;
  ndvi_1yr_r <- ndvi_clim_r_coll coll_1yr_o ndvi_1yr_p year_start year_end ;;
  ty <- select_coll ndvi_1yr_r ["year"; "ndvi_res"] ;;
  let lf_prest := reduce_linearFit ty in
  res <- select_coll ndvi_1yr_r ["ndvi_res"] ;;
  mk_prest <- mann_kendall_stat res ;;
  let period := period year_start year_end in
  kendall <- kendall period ;;
  obs <- select_coll ndvi_1yr_o ["ndvi"] ;;
  mk_trend <- mann_kendall_stat obs ;;
  img <- export_image lf_prest mk_trend kendall ;;
  Ok (mkExport img EXECUTION_ID EXECUTION_ID "ldmt" 10000000000 250 region).

(** ** The Mann-Kendall statistic as the specification words it *)

(** Every pair [(value[i], value[j])] with [i < j]. *)
Fixpoint all_pairs {A} (l : list A) : list (A * A) :=
  match l with
  | [] => []
  | x :: r => map (pair x) r ++ all_pairs r
  end.

Definition concordant (p : Q * Q) : bool := qltb (fst p) (snd p).
Definition discordant (p : Q * Q) : bool := qltb (snd p) (fst p).

Definition count_pairs (f : Q * Q -> bool) (ps : list (Q * Q)) : Z :=
  Z.of_nat (length (filter f ps)).

(** S = concordant count - discordant count over all [n(n-1)/2] pairs. *)
Definition mann_kendall_S (vs : list Q) : Z :=
  count_pairs concordant (all_pairs vs) - count_pairs discordant (all_pairs vs).

(** ** Sample data *)

(** A stack of one-band layers with the given valid values at the pixel. *)
Definition layers (vs : list Q) : ImageCollection :=
  map (fun v => mkImage [("ndvi", Some v)] None None) vs.

(** A MOD13Q1 image at the pixel. *)
Definition modis_img (d : Z * Z * Z) (ndvi qa : pixel) : Image :=
  mkImage [("NDVI", ndvi); ("SummaryQA", qa)] None (Some d).

(** A climate image of 33 x 24 bands. *)
Definition clim_image (f : Z -> pixel) : Image :=
  mkImage (map (fun i => ("b", f i)) (pyrange 0 792)) None None.

(** The intermediate collections of [restrend_pointwise], by the names the
    program gives them. *)
Record Stages : Type := mkStages {
  ndvi_1yr_o : ImageCollection;
  clim_1yr_o : ImageCollection;
  coll_1yr_o : ImageCollection;
  lf_clim_ndvi : Image;
  ndvi_1yr_p : ImageCollection;
  ndvi_1yr_r : ImageCollection
}.

(** The statements of [restrend_pointwise] from the quality filter to the
    residual collection. *)
Definition stages (modis : ImageCollection) (clim_15d_o : Image)
           (year_start year_end : Z) : result Stages :=
  modis_16d_o <- mapM qa_filter modis ;;
  ndvi_1yr_o <- int_16d_1yr_o year_start year_end modis_16d_o ;;
  clim_1yr_o <- int_15d_1yr_clim (divide clim_15d_o (constant 10000)) ;;
  coll_1yr_o <- stack ndvi_1yr_o clim_1yr_o year_start year_end ;;
  xy <- select_coll coll_1yr_o ["clim"; "ndvi"] ;;
  let lf_clim_ndvi := reduce_linearFit xy in
  clim <- select_coll coll_1yr_o ["clim"] ;;
  ndvi_1yr_p <- iterate (ndvi_clim_p lf_clim_ndvi) clim [] ;;
  ndvi_1yr_r <- ndvi_clim_r_coll coll_1yr_o ndvi_1yr_p year_start year_end ;;
  Ok (mkStages ndvi_1yr_o clim_1yr_o coll_1yr_o lf_clim_ndvi ndvi_1yr_p ndvi_1yr_r).

(** The statements that follow the residual collection. *)
Definition finish (st : Stages) (year_start year_end : Z) (region : json)
           (EXECUTION_ID : string) : result Export :=
  ty <- select_coll (ndvi_1yr_r st) ["year"; "ndvi_res"] ;;
  let lf_prest := reduce_linearFit ty in
  res <- select_coll (ndvi_1yr_r st) ["ndvi_res"] ;;
  mk_prest <- mann_kendall_stat res ;;
  let period := period year_start year_end in
  kendall <- kendall period ;;
  obs <- select_coll (ndvi_1yr_o st) ["ndvi"] ;;
  mk_trend <- mann_kendall_stat obs ;;
  img <- export_image lf_prest mk_trend kendall ;;
  Ok (mkExport img EXECUTION_ID EXECUTION_ID "ldmt" 10000000000 250 region).

(** [restrend_pointwise] with the statement [mk_prest = ...] removed. *)
Definition restrend_pointwise_without_mk_prest
           (modis : ImageCollection) (clim_15d_o : Image)
           (year_start year_end : Z) (geojson : json) (EXECUTION_ID : string)
  : result Export :=
  region <- get_coords geojson ;;
  modis_16d_o <- mapM qa_filter modis ;;
  ndvi_1yr_o <- int_16d_1yr_o year_start year_end modis_16d_o ;;
  clim_1yr_o <- int_15d_1yr_clim (divide clim_15d_o (constant 10000)) ;;
  coll_1yr_o <- stack ndvi_1yr_o clim_1yr_o year_start year_end ;;
  xy <- select_coll coll_1yr_o ["clim"; "ndvi"] ;;
  let lf_clim_ndvi := reduce_linearFit xy in
  clim <- select_coll coll_1yr_o ["clim"] ;;
  ndvi_1yr_p <- iterate (ndvi_clim_p lf_clim_ndvi) clim [] ;;
  ndvi_1yr_r <- ndvi_clim_r_coll coll_1yr_o ndvi_1yr_p year_start year_end ;;
  ty <- select_coll ndvi_1yr_r ["year"; "ndvi_res"] ;;
  let lf_prest := reduce_linearFit ty in
  let period := period year_start year_end in
  kendall <- kendall period ;;
  obs <- select_coll ndvi_1yr_o ["ndvi"] ;;
  mk_trend <- mann_kendall_stat obs ;;
  img <- export_image lf_prest mk_trend kendall ;;
  Ok (mkExport img EXECUTION_ID EXECUTION_ID "ldmt" 10000000000 250 region).

(** A climate stack that varies a little from year to year, and a MODIS
    collection of one good-quality image per year from 2003 to 2014 whose
    index follows the climate and gains 0.01 a year. *)
Definition clim_ex : Image :=
  clim_image (fun i => Some (inject_Z (3000 + 10 * ((7 * (i / 24)) mod 5)))).

Definition ndvi_raw (y : Z) : Q :=
  inject_Z (2 * (3000 + 10 * ((7 * (y - 1982)) mod 5)) + 1000 + 100 * (y - 2003)).

Definition modis_ex : ImageCollection :=
  map (fun y => modis_img (y, 1, 1) (Some (ndvi_raw y)) (Some 0%Q))
      (pyrange 2003 2015).

(** The same collection with the 2008 image flagged as bad (flag 3). *)
Definition modis_bad_2008 : ImageCollection :=
  map (fun y => modis_img (y, 1, 1) (Some (ndvi_raw y))
                          (Some (if y =? 2008 then 3%Q else 0%Q)))
      (pyrange 2003 2015).

Definition aoi : json :=
  JObj [("type", JStr "FeatureCollection");
        ("features",
         JArr [JObj [("type", JStr "Feature");
                     ("geometry",
                      JObj [("type", JStr "Polygon");
                            ("coordinates",
                             JArr [JArr [JArr [JNum (-17); JNum 12];
                                         JArr [JNum (-11); JNum 12];
                                         JArr [JNum (-11); JNum 17];
                                         JArr [JNum (-17); JNum 12]]])])];
               JObj [("type", JStr "Feature");
                     ("geometry",
                      JObj [("type", JStr "MultiPolygon");
                            ("coordinates", JArr [])])]])].

(** The pairs of time indices that the two loops of [mann_kendall_stat]
    visit on a list of [n] items, in the order of the visit. *)
Definition index_pairs (n : Z) : list (Z * Z) :=
  flat_map (fun k => map (pair k) (pyrange (k + 1) (n - 1))) (pyrange 0 (n - 2)).

(** The default image of an out-of-range index (never reached). *)
Definition no_image : Image := mkImage [] None None.

Definition item (l : ImageCollection) (i : Z) : Image :=
  nth (Z.to_nat i) l no_image.

(** The value of a result that is known to be [Ok]. *)
Definition unwrap {A} (d : A) (r : result A) : A :=
  match r with
  | Ok x => x
  | Err _ => d
  end.

(** The value of the single band of a one-band image. *)
Definition value (img : Image) : pixel := band_at (bands img) 0.

(** The loop bodies of [stack], of the iteration of [ndvi_clim_p] and of
    [ndvi_clim_r_coll], each as the image it appends. *)
Definition stack_step (ndvi_1yr_o clim_1yr_o : ImageCollection) (k : Z)
  : result Image :=
  ndvi_sel <- select_coll (filter_year ndvi_1yr_o k) ["ndvi"] ;;
  let ndvi := median ndvi_sel in
  clim_sel <- select_coll (filter_year clim_1yr_o k) ["ndvi"] ;;
  let clim := median clim_sel in
  img <- rename (addBands ndvi (addBands clim (constant (inject_Z k))))
                ["ndvi"; "clim"; "year"] ;;
  Ok (set_year img (Some k)).

Definition predict_step (lf_clim_ndvi : Image) (image : Image) : result Image :=
  offset <- select lf_clim_ndvi ["offset"] ;;
  scale <- select lf_clim_ndvi ["scale"] ;;
  Ok (set_year (add offset (multiply scale image)) (year image)).

(** The image [mann_kendall_stat] returns on a stack of valid layers with
    values [ws] (at most 50 of them): the statistic of the stack without
    its last layer, and no band at all below three layers. *)
Definition S_image (ws : list Q) : Image :=
  if (length ws <? 3)%nat then mkImage [] None None
  else mkImage [("ndvi", Some (inject_Z (mann_kendall_S (removelast ws))))] None None.

Definition Zbool (b : bool) : Z := if b then 1 else 0.

(** The bodies of the two loops of [mann_kendall_stat], on the list [T] of
    [n] items. *)
Definition inner_step (T : ImageCollection) (CurrentImage : Image)
  : list Image * list Image -> Z -> result (list Image * list Image) :=
  fun '(ConcordantArray, DiscordantArray) l =>
    nextImage <- list_get T l ;;
    Ok (ConcordantArray ++ [lt CurrentImage nextImage],
        DiscordantArray ++ [gt CurrentImage nextImage]).

Definition outer_step (T : ImageCollection) (n : Z)
  : list Image * list Image -> Z -> result (list Image * list Image) :=
  fun '(ConcordantArray, DiscordantArray) k =>
    CurrentImage <- list_get T k ;;
    foldM (inner_step T CurrentImage) (pyrange (k + 1) (n - 1))
          (ConcordantArray, DiscordantArray).

(** ** The entry point and the unfinished function *)

(** [v] as a Python condition: [None], [False], zero, and the empty
    string, list and dict are false. *)
Definition truthy (v : json) : bool :=
  match v with
  | JNull => false
  | JBool b => b
  | JNum q => negb (Qeq_bool q 0)
  | JStr EmptyString => false
  | JStr (String _ _) => true
  | JArr [] => false
  | JArr (_ :: _) => true
  | JObj [] => false
  | JObj (_ :: _) => true
  end.

(** The keys [run] reads from [params], each absent ([None]) or present
    with a value: the years are integers, the identifier a string, the area
    any JSON value. *)
Record Params : Type := mkParams {
  p_year_start : option Z;
  p_year_end : option Z;
  p_EXECUTION_ID : option string;
  p_geojson : option json
}.

(** [params.get(key, default)]. *)
Definition get_default {A} (o : option A) (default : A) : A :=
  match o with
  | Some v => v
  | None => default
  end.

(** The area [run] falls back on: Senegal. *)
Definition default_poly : json :=
  JObj
    [("type", JStr "FeatureCollection");
     ("features", JArr
       [JObj
          [("type", JStr "Feature");
           ("id", JStr "SEN");
           ("properties", JObj
             [("name", JStr "Senegal")]);
           ("geometry", JObj
             [("type", JStr "Polygon");
              ("coordinates", JArr
                [JArr
                   [JArr [JNum (-16713729 # 1000000); JNum (13594959 # 1000000)];
                    JArr [JNum (-17126107 # 1000000); JNum (14373516 # 1000000)];
                    JArr [JNum (-17625043 # 1000000); JNum (14729541 # 1000000)];
                    JArr [JNum (-17185173 # 1000000); JNum (14919477 # 1000000)];
                    JArr [JNum (-16700706 # 1000000); JNum (15621527 # 1000000)];
                    JArr [JNum (-16463098 # 1000000); JNum (16135036 # 1000000)];
                    JArr [JNum (-1612069 # 100000); JNum (16455663 # 1000000)];
                    JArr [JNum (-15623666 # 1000000); JNum (16369337 # 1000000)];
                    JArr [JNum (-15135737 # 1000000); JNum (16587282 # 1000000)];
                    JArr [JNum (-14577348 # 1000000); JNum (16598264 # 1000000)];
                    JArr [JNum (-14099521 # 1000000); JNum (16304302 # 1000000)];
                    JArr [JNum (-13435738 # 1000000); JNum (16039383 # 1000000)];
                    JArr [JNum (-12830658 # 1000000); JNum (15303692 # 1000000)];
                    JArr [JNum (-1217075 # 100000); JNum (14616834 # 1000000)];
                    JArr [JNum (-12124887 # 1000000); JNum (13994727 # 1000000)];
                    JArr [JNum (-11927716 # 1000000); JNum (13422075 # 1000000)];
                    JArr [JNum (-11553398 # 1000000); JNum (13141214 # 1000000)];
                    JArr [JNum (-11467899 # 1000000); JNum (12754519 # 1000000)];
                    JArr [JNum (-11513943 # 1000000); JNum (12442988 # 1000000)];
                    JArr [JNum (-11658301 # 1000000); JNum (12386583 # 1000000)];
                    JArr [JNum (-12203565 # 1000000); JNum (12465648 # 1000000)];
                    JArr [JNum (-12278599 # 1000000); JNum (1235444 # 100000)];
                    JArr [JNum (-12499051 # 1000000); JNum (1233209 # 100000)];
                    JArr [JNum (-13217818 # 1000000); JNum (12575874 # 1000000)];
                    JArr [JNum (-13700476 # 1000000); JNum (12586183 # 1000000)];
                    JArr [JNum (-15548477 # 1000000); JNum (1262817 # 100000)];
                    JArr [JNum (-15816574 # 1000000); JNum (12515567 # 1000000)];
                    JArr [JNum (-16147717 # 1000000); JNum (12547762 # 1000000)];
                    JArr [JNum (-16677452 # 1000000); JNum (12384852 # 1000000)];
                    JArr [JNum (-16841525 # 1000000); JNum (13151394 # 1000000)];
                    JArr [JNum (-15931296 # 1000000); JNum (13130284 # 1000000)];
                    JArr [JNum (-15691001 # 1000000); JNum (13270353 # 1000000)];
                    JArr [JNum (-15511813 # 1000000); JNum (1327857 # 100000)];
                    JArr [JNum (-15141163 # 1000000); JNum (13509512 # 1000000)];
                    JArr [JNum (-14712197 # 1000000); JNum (13298207 # 1000000)];
                    JArr [JNum (-14277702 # 1000000); JNum (13280585 # 1000000)];
                    JArr [JNum (-13844963 # 1000000); JNum (13505042 # 1000000)];
                    JArr [JNum (-14046992 # 1000000); JNum (13794068 # 1000000)];
                    JArr [JNum (-14376714 # 1000000); JNum (1362568 # 100000)];
                    JArr [JNum (-14687031 # 1000000); JNum (13630357 # 1000000)];
                    JArr [JNum (-15081735 # 1000000); JNum (13876492 # 1000000)];
                    JArr [JNum (-1539877 # 100000); JNum (13860369 # 1000000)];
                    JArr [JNum (-15624596 # 1000000); JNum (13623587 # 1000000)];
                    JArr [JNum (-16713729 # 1000000); JNum (13594959 # 1000000)]]])])]])].

(** [run(params, logger)]: [None] stands for the [False] it returns on an
    empty area, [Some] for the task request. *)
Definition run (modis : ImageCollection) (clim_15d_o : Image) (params : Params)
  : result (option Export) :=
  let year_start := get_default (p_year_start params) 2003 in
  let year_end := get_default (p_year_end params) 2015 in
  let EXECUTION_ID := get_default (p_EXECUTION_ID params) "default_execution_id" in
  let geojson := get_default (p_geojson params) default_poly in
  if negb (truthy geojson) then Ok None
  else
    task <- restrend_pointwise modis clim_15d_o year_start year_end geojson
                               EXECUTION_ID ;;
    Ok (Some task).

(** [ndvi_annual_integral]: its body ends after the definition of the
    quality filter, so it reads the region and returns [None]. *)
Definition ndvi_annual_integral (year_start year_end : Z) (geojson : json)
  : result (option Export) :=
  region <- get_coords geojson ;;
  Ok None.

(** [g] wraps the geometry [geom]: as a Feature (no feature list, the
    geometry under ['geometry']) or as a FeatureCollection whose first
    feature holds it. *)
Definition wraps (g geom : json) : Prop :=
  (dict_get g "features" = Ok JNull /\ dict_get g "geometry" = Ok geom)
  \/ (exists f others,
         dict_get g "features" = Ok (JArr (f :: others))
         /\ dict_get f "geometry" = Ok geom).

(** ** Closed forms of the annual composites *)

(** The valid values among some bands. *)
Definition valid_values (bs : list band) : list Q :=
  flat_map (fun '(_, p) => match p with
                           | Some v => [v]
                           | None => []
                           end) bs.

(** The 24 bands of window [k] (counted from 1) of the climate stack. *)
Definition window (bs : list band) (k : Z) : list band :=
  firstn 24 (skipn (Z.to_nat ((k - 1) * 24)) bs).

(** The annual climate layer of window [k]. *)
Definition clim_layer (bs : list band) (k : Z) : Image :=
  mkImage [("ndvi", r_mean (valid_values (window bs k)))] (Some (1981 + k)) None.

(** The loop body of [int_15d_1yr_clim], as the image it appends. *)
Definition clim_step (img_stack : Image) (k : Z) : result Image :=
  sel <- select_idx img_stack (pyrange ((k - 1) * 24) (k * 24)) ;;
  ndvi_lyr <- rename (reduce_bands_mean sel) ["ndvi"] ;;
  Ok (set_year ndvi_lyr (Some (1981 + k))).

(** The NDVI pixel of an image, masked when the band is missing. *)
Definition ndvi_px (img : Image) : pixel :=
  match find_band "NDVI" (bands img) with
  | Some (_, p) => p
  | None => None
  end.

(** The valid NDVI values of a collection at the pixel. *)
Definition ndvi_values (c : ImageCollection) : list Q :=
  flat_map (fun img => match ndvi_px img with
                       | Some v => [v]
                       | None => []
                       end) c.

(** The annual layer of year [k]: the mean of the valid NDVI values dated in
    the year, scaled by 0.0001, and the year as a band and as a property. *)
Definition annual_ndvi (coll : ImageCollection) (k : Z) : Image :=
  mkImage [("ndvi", lift2 qmul (r_mean (ndvi_values (filterDate coll (k, 1, 1) (k, 12, 31))))
                          (Some (1 # 10000)));
           ("year", Some (inject_Z k))]
          (Some k) None.

(** The loop body of [int_16d_1yr_o], as the image it appends. *)
Definition int_16d_step (ndvi_coll : ImageCollection) (k : Z) : result Image :=
  sel <- select_coll ndvi_coll ["NDVI"] ;;
  let ndvi_img :=
    multiply (reduce_mean (filterDate sel (k, 1, 1) (k, 12, 31)))
             (constant (1 # 10000)) in
  img <- rename (addBands ndvi_img (constant (inject_Z k))) ["ndvi"; "year"] ;;
  Ok (set_year img (Some k)).

(** The image [select('NDVI')] makes of an image that has the band. *)
Definition ndvi_only (img : Image) : Image :=
  mkImage [("NDVI", ndvi_px img)] (year img) (time_start img).

(** ** The statistic on layers that may be masked *)

(** The pairs whose two pixels are valid. *)
Definition valid_pairs (ps : list (pixel * pixel)) : list (Q * Q) :=
  flat_map (fun '(a, b) => match a, b with
                           | Some x, Some y => [(x, y)]
                           | _, _ => []
                           end) ps.

(** S over the valid pairs of a series of pixels: a pair with a masked
    pixel counts for nothing, and without any valid pair S is masked. *)
Definition S_pixel (ps : list pixel) : pixel :=
  let v := valid_pairs (all_pairs ps) in
  match v with
  | [] => None
  | _ :: _ => Some (inject_Z (count_pairs concordant v - count_pairs discordant v))
  end.

Definition one_band (img : Image) : Prop := exists n p, bands img = [(n, p)].

Definition band_name (img : Image) : string :=
  match bands img with
  | (n, _) :: _ => n
  | [] => EmptyString
  end.

(** The valid pixels of a list. *)
Definition valid_px (ps : list pixel) : list Q :=
  flat_map (fun p => match p with
                     | Some v => [v]
                     | None => []
                     end) ps.

(** ** The run as functions of the year *)

(** The pixel of the band named [n], masked when the band is missing. *)
Definition band_px (n : string) (img : Image) : pixel :=
  match find_band n (bands img) with
  | Some (_, p) => p
  | None => None
  end.

(** The pairs a linear fit sees: the years of [l] where both pixels are
    valid. *)
Definition fit_pairs (X Y : Z -> pixel) (l : list Z) : list (Q * Q) :=
  flat_map (fun k => match X k, Y k with
                     | Some x, Some y => [(x, y)]
                     | _, _ => []
                     end) l.

(** The residual of year [k]: observed minus [offset + scale * climate]. *)
Definition residual (A B : Z -> pixel) (s o : pixel) (k : Z) : pixel :=
  lift2 qsub (A k) (lift2 qadd o (lift2 qmul s (B k))).

(** The year as the pixel of the [year] band. *)
Definition year_px (k : Z) : pixel := Some (inject_Z k).

(** The slope of the residual fit, from the observed index [A] and the
    climate [B] of the years [l]. *)
Definition slope (A B : Z -> pixel) (l : list Z) : pixel :=
  fst (linearFit_px
         (fit_pairs year_px
            (residual A B (fst (linearFit_px (fit_pairs B A l)))
                          (snd (linearFit_px (fit_pairs B A l)))) l)).

(** The exported pixel, from the slope [s], the vegetation statistic [m]
    and the critical value [K]. *)
Definition export_px (s m : pixel) (K : Z) : pixel :=
  unmask_px
    (where_px
       (where_px s (lift2 qlte (lift1 qabs m) (Some (inject_Z K))) nodata)
       (lift2 qlte (lift1 qabs s) (Some (1 # 1000000))) nodata)
    nodata.

(** A MODIS collection whose index is valid in 2003 and 2007 only. *)
Definition modis_two_valid : ImageCollection :=
  map (fun y => modis_img (y, 1, 1) (Some (ndvi_raw y))
                          (Some (if (y =? 2003) || (y =? 2007) then 0%Q else 3%Q)))
      (pyrange 2003 2015).

(** * Properties *)

(** ** The significance table *)

Lemma coefficients_length : length coefficients = 37%nat.
Proof. reflexivity. Qed.

Lemma array_get_in_range (a : list Z) (i : Z) :
  0 <= i < Z.of_nat (length a) ->
  exists v, nth_error a (Z.to_nat i) = Some v /\ array_get a i = Ok v.
Proof.
  intros [H0 H1]. unfold array_get.
  destruct (Z.ltb_spec i 0) as [Hneg|_]; [lia|].
  destruct (nth_error a (Z.to_nat i)) as [v|] eqn:E.
  - exists v. split; reflexivity.
  - apply nth_error_None in E. lia.
Qed.

Lemma array_get_out_of_range (a : list Z) (i : Z) :
  i < 0 \/ Z.of_nat (length a) <= i ->
  array_get a i = Err ArrayIndexOutOfBounds.
Proof.
  intros H. unfold array_get.
  destruct (Z.ltb_spec i 0) as [Hneg|Hpos]; [reflexivity|].
  destruct (nth_error a (Z.to_nat i)) eqn:E; [|reflexivity].
  assert (nth_error a (Z.to_nat i) <> None) as N by congruence.
  apply nth_error_Some in N. lia.
Qed.

(** C3, as the code has it: the table has 37 entries, so the lookup
    supports exactly the periods 4 to 40; inside the range it returns the
    entry at index [period - 4], outside (so at 3 and at 41) it fails. *)
Theorem kendall_supported_periods (p : Z) :
  (4 <= p <= 40 ->
   exists v, nth_error coefficients (Z.to_nat (p - 4)) = Some v /\ kendall p = Ok v)
  /\ (p < 4 \/ 40 < p -> kendall p = Err ArrayIndexOutOfBounds).
Proof.
  unfold kendall. split; intros H.
  - apply array_get_in_range. rewrite coefficients_length. lia.
  - apply array_get_out_of_range. rewrite coefficients_length. lia.
Qed.

Lemma kendall_supported_periods_witness :
  kendall 40 = Ok 142
  /\ kendall 3 = Err ArrayIndexOutOfBounds
  /\ kendall 41 = Err ArrayIndexOutOfBounds.
Proof.
  split; [|split].
  - destruct (kendall_supported_periods 40) as [H _].
    destruct (H ltac:(lia)) as [v [Hv Hk]].
    vm_compute in Hv. inversion Hv. subst v. exact Hk.
  - destruct (kendall_supported_periods 3) as [_ H]. apply H. lia.
  - destruct (kendall_supported_periods 41) as [_ H]. apply H. lia.
Defined.

(** C3 as stated fails at period 40: the lookup succeeds there. *)
Lemma kendall_period_40_succeeds :
  period 2003 2042 = 40 /\ kendall 40 = Ok 142 /\ is_ok (kendall 40).
Proof. vm_compute. repeat split. Qed.

(** ** The area of interest *)

(** C10: with a non-empty feature list under ['features'], the coordinates
    and the type are those of the first feature's geometry; the other
    features, and the other keys of the object, are not read. *)
Theorem first_feature_only (g g' f : json) (others others' : list json)
        (Hg : dict_get g "features" = Ok (JArr (f :: others)))
        (Hg' : dict_get g' "features" = Ok (JArr (f :: others'))) :
  get_coords g = (geometry <- dict_get f "geometry" ;; dict_get geometry "coordinates")
  /\ get_type g = (geometry <- dict_get f "geometry" ;; dict_get geometry "type")
  /\ get_coords g = get_coords g'
  /\ get_type g = get_type g'
  /\ get_region g = get_region g'.
Proof.
  assert (Hc : forall h rest, dict_get h "features" = Ok (JArr (f :: rest)) ->
                get_coords h = (geometry <- dict_get f "geometry" ;;
                                dict_get geometry "coordinates")).
  { intros h rest Hh. unfold get_coords. rewrite Hh. reflexivity. }
  assert (Ht : forall h rest, dict_get h "features" = Ok (JArr (f :: rest)) ->
                get_type h = (geometry <- dict_get f "geometry" ;;
                              dict_get geometry "type")).
  { intros h rest Hh. unfold get_type. rewrite Hh. reflexivity. }
  repeat split.
  - eapply Hc; eauto.
  - eapply Ht; eauto.
  - rewrite (Hc _ _ Hg), (Hc _ _ Hg'). reflexivity.
  - rewrite (Ht _ _ Hg), (Ht _ _ Hg'). reflexivity.
  - unfold get_region.
    rewrite (Hc _ _ Hg), (Hc _ _ Hg'), (Ht _ _ Hg), (Ht _ _ Hg'). reflexivity.
Qed.

(** ** Selecting bands *)

Lemma select_one (img : Image) (n : string) (p : pixel) :
  find_band n (bands img) = Some (n, p) ->
  select img [n] = Ok (mkImage [(n, p)] (year img) (time_start img)).
Proof. intros H. unfold select. simpl. rewrite H. reflexivity. Qed.

(** ** One-band images *)

Lemma where_single n p y t test v :
  where_ (mkImage [(n, p)] y t) test v
  = mkImage [(n, where_px p (band_at (bands test) 0) v)] y t.
Proof. reflexivity. Qed.

Lemma binop_single f n p y t m q y' t' :
  binop f (mkImage [(n, p)] y t) (mkImage [(m, q)] y' t')
  = mkImage [(n, lift2 f p q)] None None.
Proof. reflexivity. Qed.

Lemma updateMask_single n p y t m q y' t' :
  updateMask (mkImage [(n, p)] y t) (mkImage [(m, q)] y' t')
  = mkImage [(n, updateMask_px p q)] y t.
Proof. reflexivity. Qed.

Lemma unmask_single n p y t v :
  unmask (mkImage [(n, p)] y t) v = mkImage [(n, unmask_px p v)] y t.
Proof. reflexivity. Qed.

(** ** The quality filter *)

Lemma Qeq_bool_compat (x y k : Q) : (x == y)%Q -> Qeq_bool x k = Qeq_bool y k.
Proof.
  intros H.
  destruct (Qeq_bool x k) eqn:Ex, (Qeq_bool y k) eqn:Ey; try reflexivity.
  - apply Qeq_bool_iff in Ex. rewrite H in Ex.
    apply Qeq_bool_iff in Ex. congruence.
  - apply Qeq_bool_iff in Ey. rewrite <- H in Ey.
    apply Qeq_bool_iff in Ey. congruence.
Qed.

Lemma where_px_flag (inp : pixel) (x c v : Q) :
  where_px inp (Some (qeq x c)) v
  = match inp with
    | None => None
    | Some y => if Qeq_bool x c then Some v else Some y
    end.
Proof.
  unfold where_px, qeq. destruct inp; [|reflexivity].
  destruct (Qeq_bool x c); reflexivity.
Qed.

(** C7: for a quality flag among the values the band takes (-1, 0, 1, 2,
    3), the filter keeps the NDVI pixel as it is when the flag is 0 or 1 and
    masks it when the flag is -1, 2 or 3. *)
Theorem qa_filter_validity (img : Image) (ndvi : pixel) (qa : Q)
        (Hqa : find_band "SummaryQA" (bands img) = Some ("SummaryQA", Some qa))
        (Hndvi : find_band "NDVI" (bands img) = Some ("NDVI", ndvi)) :
  ((qa == 0 \/ qa == 1)%Q ->
   qa_filter img = Ok (mkImage [("NDVI", ndvi)] (year img) (time_start img)))
  /\ ((qa == -1 \/ qa == 2 \/ qa == 3)%Q ->
      qa_filter img = Ok (mkImage [("NDVI", None)] (year img) (time_start img))).
Proof.
  unfold qa_filter.
  rewrite (select_one _ _ _ Hqa), (select_one _ _ _ Hndvi).
  cbn [bind]. unfold eq_, constant.
  rewrite !binop_single.
  rewrite !where_single. cbn [bands band_at].
  rewrite updateMask_single.
  cbn [lift2]. rewrite !where_px_flag.
  split; intros H.
  - destruct H as [H|H]; rewrite !(Qeq_bool_compat _ _ _ H);
      destruct ndvi; reflexivity.
  - destruct H as [H|[H|H]]; rewrite !(Qeq_bool_compat _ _ _ H);
      destruct ndvi; reflexivity.
Qed.

(** A flag outside the five listed values is left in the mask as it is:
    a positive one keeps the pixel. *)
Example qa_filter_other_flag :
  qa_filter (modis_img (2003, 1, 1) (Some 5000%Q) (Some 5%Q))
  = Ok (mkImage [("NDVI", Some 5000%Q)] None (Some (2003, 1, 1))).
Proof. reflexivity. Qed.

Lemma qa_filter_validity_witness :
  qa_filter (modis_img (2003, 1, 1) (Some 5000%Q) (Some 1%Q))
  = Ok (mkImage [("NDVI", Some 5000%Q)] None (Some (2003, 1, 1)))
  /\ qa_filter (modis_img (2003, 1, 17) (Some 5000%Q) (Some 2%Q))
     = Ok (mkImage [("NDVI", None)] None (Some (2003, 1, 17))).
Proof.
  split.
  - apply (proj1 (qa_filter_validity (modis_img (2003, 1, 1) (Some 5000%Q) (Some 1%Q))
                    (Some 5000%Q) 1%Q eq_refl eq_refl)).
    right. reflexivity.
  - apply (proj2 (qa_filter_validity (modis_img (2003, 1, 17) (Some 5000%Q) (Some 2%Q))
                    (Some 5000%Q) 2%Q eq_refl eq_refl)).
    right. left. reflexivity.
Defined.

(** ** The exported image *)

Lemma band_at_lte_abs (mk : Image) (c : Q) :
  band_at (bands (lte (abs mk) (constant c))) 0
  = lift2 qlte (lift1 qabs (band_at (bands mk) 0)) (Some c).
Proof.
  destruct mk as [bs y t]. unfold lte, abs, binop, unop, constant. cbn [bands].
  destruct bs as [|[n p] [|[n' p'] r]]; reflexivity.
Qed.

Lemma Qle_decide (x y : Q) : {(x <= y)%Q} + {~ (x <= y)%Q}.
Proof.
  destruct (Qlt_le_dec y x) as [H|H].
  - right. apply Qlt_not_le. exact H.
  - left. exact H.
Qed.

Lemma qlte_true (x y : Q) : (x <= y)%Q -> qlte x y = 1%Q.
Proof. intros H. unfold qlte. apply Qle_bool_iff in H. rewrite H. reflexivity. Qed.

Lemma qlte_false (x y : Q) : ~ (x <= y)%Q -> qlte x y = 0%Q.
Proof.
  intros H. unfold qlte. destruct (Qle_bool x y) eqn:E; [|reflexivity].
  apply Qle_bool_iff in E. contradiction.
Qed.

(** C2, as the code has it: the exported band is the slope of the residual
    fit, replaced by the sentinel where the slope is masked, where the
    vegetation statistic is valid with [|S| <= critical value], and where
    [|slope| <= 1e-6]; everywhere else, also where the vegetation statistic
    is masked, it is the slope. *)
Theorem export_image_masking (lf_prest mk_trend : Image) (K : Z) (s : pixel)
        (Hs : find_band "scale" (bands lf_prest) = Some ("scale", s)) :
  exists out,
    export_image lf_prest mk_trend K
    = Ok (mkImage [("scale", Some out)] (year lf_prest) (time_start lf_prest))
    /\ (s = None -> out = nodata)
    /\ (forall v, band_at (bands mk_trend) 0 = Some v ->
                  (Qabs v <= inject_Z K)%Q -> out = nodata)
    /\ (forall x, s = Some x -> (Qabs x <= 1 # 1000000)%Q -> out = nodata)
    /\ (forall x, s = Some x ->
                  ~ (Qabs x <= 1 # 1000000)%Q ->
                  (forall v, band_at (bands mk_trend) 0 = Some v ->
                             ~ (Qabs v <= inject_Z K)%Q) ->
                  out = x).
Proof.
  unfold export_image. rewrite (select_one _ _ _ Hs). cbn [bind].
  rewrite !where_single, unmask_single, !band_at_lte_abs.
  cbn [bands band_at]. unfold qabs, lift1.
  destruct s as [x|]; cbn [option_map lift2].
  - destruct (Qle_decide (Qabs x) (1 # 1000000)) as [Hx|Hx].
    + rewrite (qlte_true _ _ Hx).
      exists nodata. split.
      * destruct (band_at (bands mk_trend) 0) as [v|]; cbn;
          [destruct (Qeq_bool (qlte (Qabs v) (inject_Z K)) 0)|]; reflexivity.
      * repeat split; try reflexivity. intros y Hy. inversion Hy. subst y.
        intros N. contradiction.
    + rewrite (qlte_false _ _ Hx).
      destruct (band_at (bands mk_trend) 0) as [v|]; cbn [option_map lift2].
      * destruct (Qle_decide (Qabs v) (inject_Z K)) as [Hv|Hv].
        -- rewrite (qlte_true _ _ Hv). exists nodata. cbn.
           repeat split; try reflexivity.
           intros y Hy _ N. exfalso. exact (N v eq_refl Hv).
        -- rewrite (qlte_false _ _ Hv). exists x. cbn.
           split; [reflexivity|]. split; [discriminate|].
           split; [intros w Hw; inversion Hw; subst w; contradiction|].
           split; [intros y Hy; inversion Hy; subst y; contradiction|].
           intros y Hy _ _. inversion Hy. reflexivity.
      * exists x. cbn. split; [reflexivity|]. split; [discriminate|].
        split; [discriminate|].
        split; [intros y Hy; inversion Hy; subst y; contradiction|].
        intros y Hy _ _. inversion Hy. reflexivity.
  - exists nodata. cbn. repeat split; try reflexivity; discriminate.
Qed.

Lemma export_image_masking_witness :
  export_image (mkImage [("scale", Some (1 # 100)); ("offset", Some 0%Q)] None None)
               (mkImage [("ndvi", None)] None None) 26
  = Ok (mkImage [("scale", Some (1 # 100))] None None).
Proof.
  destruct (export_image_masking
              (mkImage [("scale", Some (1 # 100)); ("offset", Some 0%Q)] None None)
              (mkImage [("ndvi", None)] None None) 26 (Some (1 # 100)) eq_refl)
    as [out [Hout [_ [_ [_ Hkeep]]]]].
  rewrite Hout.
  rewrite (Hkeep (1 # 100) eq_refl).
  - reflexivity.
  - intros H. vm_compute in H. apply H. reflexivity.
  - intros v Hv. discriminate Hv.
Defined.

(** C2 as stated fails: in this run the annual composite of 2008 is masked
    at the pixel (its only observation carries flag 3), an invalid value in
    an upstream stage, and the exported pixel is the slope 4081/408200, not
    the sentinel. *)
Lemma invalid_upstream_keeps_slope :
  (st <- stages modis_bad_2008 clim_ex 2003 2015 ;;
   Ok (map value (filter_year (ndvi_1yr_o st) 2008)))
  = Ok [None]
  /\ (e <- restrend_pointwise modis_bad_2008 clim_ex 2003 2015 aoi "run" ;;
      Ok (bands (image e)))
     = Ok [("scale", Some (4081 # 408200))]
  /\ Qeq_bool (4081 # 408200) nodata = false.
Proof. vm_compute. repeat split. Qed.

(** With every year observed the same run exports a slope close to the
    0.01 a year built into the sample. *)
Example restrend_pointwise_sample :
  (e <- restrend_pointwise modis_ex clim_ex 2003 2015 aoi "run" ;;
   Ok (bands (image e)))
  = Ok [("scale", Some (203 # 20306))].
Proof. vm_compute. reflexivity. Qed.

(** ** Loops *)

Lemma in_pyrange (a b x : Z) : In x (pyrange a b) <-> a <= x < b.
Proof.
  unfold pyrange. rewrite in_map_iff. split.
  - intros [i [<- Hi]]. apply in_seq in Hi. lia.
  - intros H. exists (Z.to_nat (x - a)). split; [lia|].
    apply in_seq. lia.
Qed.

Lemma pyrange_length (a b : Z) : length (pyrange a b) = Z.to_nat (b - a).
Proof. unfold pyrange. rewrite length_map, length_seq. reflexivity. Qed.

Lemma pyrange_nth_error (a b y : Z) :
  a <= y < b -> nth_error (pyrange a b) (Z.to_nat (y - a)) = Some y.
Proof.
  intros H. unfold pyrange. rewrite nth_error_map.
  rewrite nth_error_seq.
  destruct (Nat.ltb_spec (Z.to_nat (y - a)) (Z.to_nat (b - a))) as [_|N]; [|lia].
  cbn. f_equal. lia.
Qed.

Lemma pyrange_NoDup (a b : Z) : NoDup (pyrange a b).
Proof.
  unfold pyrange. apply Finite.Injective_map_NoDup; [|apply seq_NoDup].
  intros i j H. lia.
Qed.

Lemma list_get_item (l : ImageCollection) (i : Z) :
  0 <= i < Z.of_nat (length l) -> list_get l i = Ok (item l i).
Proof.
  intros [H0 H1]. unfold list_get, item.
  destruct (Z.ltb_spec i 0) as [N|_]; [lia|].
  destruct (nth_error l (Z.to_nat i)) as [x|] eqn:E.
  - rewrite (nth_error_nth _ _ _ E). reflexivity.
  - apply nth_error_None in E. lia.
Qed.

(** A loop that appends one computed item per step is a [mapM]. *)
Lemma foldM_mapM {A B} (f : list B -> A -> result (list B)) (body : A -> result B)
      (l : list A) :
  (forall acc k, f acc k = (x <- body k ;; Ok (acc ++ [x]))) ->
  forall acc, foldM f l acc = (xs <- mapM body l ;; Ok (acc ++ xs)).
Proof.
  intros Hf. induction l as [|k l IH]; intros acc; cbn [foldM mapM bind].
  - rewrite app_nil_r. reflexivity.
  - rewrite Hf. destruct (body k) as [x|e]; cbn [bind]; [|reflexivity].
    rewrite IH. destruct (mapM body l) as [xs|e]; cbn [bind]; [|reflexivity].
    rewrite <- app_assoc. reflexivity.
Qed.

Lemma mapM_Forall2 {A B} (body : A -> result B) (l : list A) (xs : list B) :
  mapM body l = Ok xs -> Forall2 (fun k x => body k = Ok x) l xs.
Proof.
  revert xs. induction l as [|k l IH]; intros xs; cbn [mapM bind].
  - intros H. inversion H. constructor.
  - destruct (body k) as [x|e] eqn:E; cbn [bind]; [|discriminate].
    destruct (mapM body l) as [ys|e]; cbn [bind]; [|discriminate].
    intros H. inversion H. subst xs. constructor; [exact E|]. apply IH. reflexivity.
Qed.

Lemma Forall2_lookup {A B} (R : A -> B -> Prop) (l : list A) (xs : list B)
      (i : nat) (k : A) :
  Forall2 R l xs -> nth_error l i = Some k ->
  exists x, nth_error xs i = Some x /\ R k x.
Proof.
  intros H. revert i. induction H as [|a b l xs Hab _ IH]; intros i Hi.
  - destruct i; discriminate.
  - destruct i as [|i]; cbn in *.
    + inversion Hi. subst a. exists b. split; [reflexivity|exact Hab].
    + apply IH. exact Hi.
Qed.

(** In a collection built with one image per key, each carrying its key as
    ['year'], the filter on a year finds exactly the image of that key. *)
Lemma filter_year_unique (R : Z -> Image -> Prop) (l : list Z) (xs : ImageCollection) :
  Forall2 R l xs ->
  (forall k x, R k x -> year x = Some k) ->
  NoDup l ->
  forall y, (In y l -> exists x, filter_year xs y = [x] /\ R y x)
            /\ (~ In y l -> filter_year xs y = []).
Proof.
  intros H Hyear. induction H as [|k x l xs Hkx _ IH]; intros Hnd y.
  - split; [intros []|reflexivity].
  - inversion Hnd as [|? ? Hnotin Hnd']. subst.
    specialize (IH Hnd' y). destruct IH as [IHin IHout].
    unfold filter_year in *. cbn [filter].
    assert (Hx : has_year y x = (k =? y)).
    { unfold has_year. rewrite (Hyear _ _ Hkx). reflexivity. }
    rewrite Hx.
    destruct (Z.eqb_spec k y) as [->|Hne].
    + split.
      * intros _. exists x. rewrite (IHout Hnotin). split; [reflexivity|exact Hkx].
      * intros N. exfalso. apply N. left. reflexivity.
    + split.
      * intros [->|Hin]; [contradiction|]. apply IHin. exact Hin.
      * intros N. apply IHout. intros Hin. apply N. right. exact Hin.
Qed.

(** ** The loops of [mann_kendall_stat] *)

Lemma inner_loop (T : ImageCollection) (C : Image) (ls : list Z) :
  (forall l, In l ls -> 0 <= l < Z.of_nat (length T)) ->
  forall ca da,
    foldM (inner_step T C) ls (ca, da)
    = Ok (ca ++ map (fun l => lt C (item T l)) ls,
          da ++ map (fun l => gt C (item T l)) ls).
Proof.
  induction ls as [|l ls IH]; intros Hin ca da; cbn [foldM map].
  - rewrite !app_nil_r. reflexivity.
  - unfold inner_step at 1. rewrite (list_get_item T l (Hin l (or_introl eq_refl))).
    cbn [bind]. rewrite IH by (intros j Hj; apply Hin; right; exact Hj).
    rewrite <- !app_assoc. reflexivity.
Qed.

Lemma outer_loop (T : ImageCollection) (n : Z) (ks : list Z) :
  n = Z.of_nat (length T) ->
  (forall k, In k ks -> 0 <= k < n) ->
  forall ca da,
    foldM (outer_step T n) ks (ca, da)
    = Ok (ca ++ map (fun '(k, l) => lt (item T k) (item T l))
                    (flat_map (fun k => map (pair k) (pyrange (k + 1) (n - 1))) ks),
          da ++ map (fun '(k, l) => gt (item T k) (item T l))
                    (flat_map (fun k => map (pair k) (pyrange (k + 1) (n - 1))) ks)).
Proof.
  intros Hn. induction ks as [|k ks IH]; intros Hin ca da; cbn [foldM flat_map map].
  - rewrite !app_nil_r. reflexivity.
  - assert (Hk : 0 <= k < n) by (apply Hin; left; reflexivity).
    unfold outer_step at 1. rewrite (list_get_item T k) by lia. cbn [bind].
    rewrite inner_loop.
    + cbn [bind]. rewrite IH by (intros j Hj; apply Hin; right; exact Hj).
      rewrite !map_app, !map_map, <- !app_assoc. reflexivity.
    + intros l Hl. apply in_pyrange in Hl. lia.
Qed.

(** What [mann_kendall_stat] returns: the loops never fail, and the
    statistic is built from the comparisons of the visited index pairs. *)
Lemma mann_kendall_stat_pairs (c : ImageCollection) :
  let T := firstn 50 c in
  let ps := index_pairs (Z.of_nat (length T)) in
  mann_kendall_stat c
  = Ok (subtract (sum (map (fun '(k, l) => lt (item T k) (item T l)) ps))
                 (sum (map (fun '(k, l) => gt (item T k) (item T l)) ps))).
Proof.
  intros T ps. unfold mann_kendall_stat. fold T.
  change (foldM _ (pyrange 0 (Z.of_nat (length T) - 2)) ([], []))
    with (foldM (outer_step T (Z.of_nat (length T)))
                (pyrange 0 (Z.of_nat (length T) - 2)) ([], [])).
  rewrite (outer_loop T (Z.of_nat (length T)) _ eq_refl).
  - reflexivity.
  - intros k Hk. apply in_pyrange in Hk. lia.
Qed.

Lemma mann_kendall_stat_total (c : ImageCollection) :
  exists img, mann_kendall_stat c = Ok img.
Proof. eexists. apply mann_kendall_stat_pairs. Qed.

(** ** The pipeline as stages *)

Ltac step_bind :=
  match goal with
  | |- bind ?c _ = _ => destruct c; cbn [bind]; try reflexivity
  end.

Ltac same_bind :=
  match goal with
  | |- bind ?c _ = bind ?c _ => destruct c eqn:?; cbn [bind]; try reflexivity
  end.

Lemma select_second (img : Image) (a b : string) (x : Image) :
  select img [a; b] = Ok x -> exists y, select img [b] = Ok y.
Proof.
  unfold select. cbn [mapM bind].
  destruct (find_band a (bands img)); cbn [bind]; [|discriminate].
  destruct (find_band b (bands img)); cbn [bind]; [|discriminate].
  intros _. eexists. reflexivity.
Qed.

Lemma select_coll_second (c : ImageCollection) (a b : string) (xs : ImageCollection) :
  select_coll c [a; b] = Ok xs -> exists ys, select_coll c [b] = Ok ys.
Proof.
  unfold select_coll. revert xs.
  induction c as [|img c IH]; intros xs; cbn [mapM bind].
  - intros _. eexists. reflexivity.
  - destruct (select img [a; b]) as [x|e] eqn:E; cbn [bind]; [|discriminate].
    destruct (mapM (fun i => select i [a; b]) c) as [xs'|e] eqn:E'; cbn [bind];
      [|discriminate].
    intros _. destruct (select_second _ _ _ _ E) as [y ->].
    destruct (IH xs' eq_refl) as [ys ->]. eexists. reflexivity.
Qed.

Lemma restrend_pointwise_stages modis clim ys ye geojson id :
  restrend_pointwise modis clim ys ye geojson id
  = (region <- get_coords geojson ;;
     st <- stages modis clim ys ye ;;
     finish st ys ye region id).
Proof.
  unfold restrend_pointwise, stages, finish.
  repeat step_bind.
Qed.

(** C9: the statement computing [mk_prest] has no effect on the result:
    the program and the program without it return the same export (or the
    same error) on every input.  The band it selects exists whenever the
    residual fit could select it, and the statistic itself never fails. *)
Theorem mk_prest_is_dead modis clim ys ye geojson id :
  restrend_pointwise modis clim ys ye geojson id
  = restrend_pointwise_without_mk_prest modis clim ys ye geojson id.
Proof.
  unfold restrend_pointwise, restrend_pointwise_without_mk_prest.
  repeat same_bind.
  match goal with
  | H : select_coll ?r ["year"; "ndvi_res"] = Ok _ |- _ =>
      destruct (select_coll_second _ _ _ _ H) as [res ->]
  end.
  cbn [bind].
  destruct (mann_kendall_stat_total res) as [mk_prest ->].
  reflexivity.
Qed.

(** ** Annual resampling *)

Lemma foldM_err {A B} (f : B -> A -> result B) (l : list A) (k : A) :
  In k l -> (forall acc, is_err (f acc k)) -> forall acc, is_err (foldM f l acc).
Proof.
  induction l as [|j l IH]; intros Hin Hk acc; [destruct Hin|].
  cbn [foldM]. destruct Hin as [->|Hin].
  - specialize (Hk acc). destruct (f acc k); [destruct Hk|exact I].
  - destruct (f acc j) as [acc'|e]; cbn [bind]; [|exact I].
    apply IH; assumption.
Qed.

Lemma bind_err {A B} (c : result A) (k : A -> result B) :
  is_err c -> is_err (bind c k).
Proof. destruct c; [intros []|intros _; exact I]. Qed.

Lemma select_time_start (img x : Image) (names : list string) :
  select img names = Ok x -> time_start x = time_start img.
Proof.
  unfold select. destruct (mapM _ names); cbn [bind]; [|discriminate].
  intros H. inversion H. reflexivity.
Qed.

Lemma qa_filter_time_start (img x : Image) :
  qa_filter img = Ok x -> time_start x = time_start img.
Proof.
  unfold qa_filter.
  destruct (select img ["SummaryQA"]) as [qa|e]; cbn [bind]; [|discriminate].
  destruct (select img ["NDVI"]) as [ndvi|e] eqn:E; cbn [bind]; [|discriminate].
  intros H. inversion H. cbn [time_start]. apply (select_time_start _ _ _ E).
Qed.

Lemma filterDate_empty_Forall2 (l l' : ImageCollection) (s e : Z * Z * Z) :
  Forall2 (fun a b => time_start b = time_start a) l l' ->
  filterDate l s e = [] -> filterDate l' s e = [].
Proof.
  unfold filterDate. induction 1 as [|a b l l' Hab _ IH]; [reflexivity|].
  cbn [filter].
  assert (Hb : in_dates s e b = in_dates s e a).
  { unfold in_dates. rewrite Hab. reflexivity. }
  rewrite Hb. destruct (in_dates s e a); [discriminate|exact IH].
Qed.

Lemma mapM_time_start (f : Image -> result Image) (l l' : ImageCollection) :
  (forall a b, f a = Ok b -> time_start b = time_start a) ->
  mapM f l = Ok l' ->
  Forall2 (fun a b => time_start b = time_start a) l l'.
Proof.
  intros Hf H. apply mapM_Forall2 in H.
  induction H; constructor; auto.
Qed.

(** The step of [int_16d_1yr_o] for a year without any image in the
    collection: the mean of nothing has no band, so the two names of the
    [rename] do not fit the single band that is left. *)
Lemma int_16d_1yr_o_step_fails (ndvi_coll : ImageCollection) (k : Z) :
  filterDate ndvi_coll (k, 1, 1) (k, 12, 31) = [] ->
  is_err (sel <- select_coll ndvi_coll ["NDVI"] ;;
          let ndvi_img :=
            multiply (reduce_mean (filterDate sel (k, 1, 1) (k, 12, 31)))
                     (constant (1 # 10000)) in
          rename (addBands ndvi_img (constant (inject_Z k))) ["ndvi"; "year"]).
Proof.
  intros Hempty.
  destruct (select_coll ndvi_coll ["NDVI"]) as [sel|e] eqn:E; cbn [bind]; [|exact I].
  assert (Hsel : filterDate sel (k, 1, 1) (k, 12, 31) = []).
  { eapply filterDate_empty_Forall2; [|exact Hempty].
    eapply mapM_time_start; [|exact E].
    intros a b. apply select_time_start. }
  rewrite Hsel. exact I.
Qed.

(** C6: when a year of [range(year_start, year_end)] has no image of the
    collection within its dates, the annual resampling fails, and so does
    the whole run: no export is produced. *)
Theorem resampling_empty_year_fails
        (modis : ImageCollection) (clim : Image) (year_start year_end : Z)
        (geojson : json) (id : string) (k : Z)
        (Hk : year_start <= k < year_end)
        (Hempty : filterDate modis (k, 1, 1) (k, 12, 31) = []) :
  is_err (int_16d_1yr_o year_start year_end modis)
  /\ is_err (restrend_pointwise modis clim year_start year_end geojson id).
Proof.
  assert (Hres : forall coll, filterDate coll (k, 1, 1) (k, 12, 31) = [] ->
                              is_err (int_16d_1yr_o year_start year_end coll)).
  { intros coll Hc. unfold int_16d_1yr_o.
    apply foldM_err with (k := k); [apply in_pyrange; exact Hk|].
    intros acc. pose proof (int_16d_1yr_o_step_fails coll k Hc) as Hstep.
    destruct (select_coll coll ["NDVI"]) as [sel|e]; cbn [bind] in *; [|exact I].
    apply bind_err. exact Hstep. }
  split; [apply Hres; exact Hempty|].
  unfold restrend_pointwise.
  destruct (get_coords geojson) as [region|e]; cbn [bind]; [|exact I].
  destruct (mapM qa_filter modis) as [modis_16d_o|e] eqn:E; cbn [bind]; [|exact I].
  apply bind_err. apply Hres.
  eapply filterDate_empty_Forall2; [|exact Hempty].
  eapply mapM_time_start; [|exact E].
  exact qa_filter_time_start.
Qed.

Lemma resampling_empty_year_fails_witness :
  is_err (int_16d_1yr_o 2003 2016 modis_ex)
  /\ is_err (restrend_pointwise modis_ex clim_ex 2003 2016 aoi "run").
Proof.
  apply (resampling_empty_year_fails modis_ex clim_ex 2003 2016 aoi "run" 2015).
  - lia.
  - reflexivity.
Defined.

Lemma first_feature_only_witness :
  get_coords aoi
  = Ok (JArr [JArr [JArr [JNum (-17); JNum 12]; JArr [JNum (-11); JNum 12];
                    JArr [JNum (-11); JNum 17]; JArr [JNum (-17); JNum 12]]])
  /\ get_type aoi = Ok (JStr "Polygon").
Proof.
  destruct (first_feature_only aoi aoi
              (JObj [("type", JStr "Feature");
                     ("geometry",
                      JObj [("type", JStr "Polygon");
                            ("coordinates",
                             JArr [JArr [JArr [JNum (-17); JNum 12];
                                         JArr [JNum (-11); JNum 12];
                                         JArr [JNum (-11); JNum 17];
                                         JArr [JNum (-17); JNum 12]]])])])
              _ _ eq_refl eq_refl) as [Hc [Ht _]].
  rewrite Hc, Ht. split; reflexivity.
Defined.

(** ** Collections with one image per year *)

Lemma mapM_map {A B} (d : B) (body : A -> result B) (l : list A) (xs : list B) :
  mapM body l = Ok xs ->
  xs = map (fun k => unwrap d (body k)) l
  /\ (forall k, In k l -> body k = Ok (unwrap d (body k))).
Proof.
  revert xs. induction l as [|k l IH]; intros xs; cbn [mapM bind map].
  - intros H. inversion H. split; [reflexivity|intros k []].
  - destruct (body k) as [x|e] eqn:E; cbn [bind]; [|discriminate].
    destruct (mapM body l) as [ys|e]; cbn [bind]; [|discriminate].
    intros H. inversion H. subst xs. destruct (IH ys eq_refl) as [-> Hall].
    split; [reflexivity|].
    intros j [<-|Hj]; [rewrite E; reflexivity|apply Hall; exact Hj].
Qed.

Lemma filter_year_map (f : Z -> Image) (l : list Z) (y : Z) :
  NoDup l -> (forall k, In k l -> year (f k) = Some k) -> In y l ->
  filter_year (map f l) y = [f y].
Proof.
  intros Hnd Hyear Hin.
  assert (H1 : forall l0, incl l0 l ->
                          Forall2 (fun k x => x = f k /\ In k l) l0 (map f l0)).
  { clear Hnd Hin Hyear. intros l0 Hincl.
    induction l0 as [|k l0 IH]; cbn [map]; constructor.
    - split; [reflexivity|]. apply Hincl. left. reflexivity.
    - apply IH. intros j Hj. apply Hincl. right. exact Hj. }
  pose proof (H1 l (incl_refl l)) as H2.
  destruct (filter_year_unique _ _ _ H2) with (y := y) as [Hfound _].
  - intros k x [-> Hk]. apply Hyear. exact Hk.
  - exact Hnd.
  - destruct (Hfound Hin) as [x [-> [-> _]]]. reflexivity.
Qed.

Lemma bind_ret {A} (c : result (list A)) : (xs <- c ;; Ok ([] ++ xs)) = c.
Proof. destruct c; reflexivity. Qed.

Lemma stack_mapM (o c : ImageCollection) (ys ye : Z) :
  stack o c ys ye = mapM (stack_step o c) (pyrange ys ye).
Proof.
  unfold stack. rewrite foldM_mapM with (body := stack_step o c).
  - apply bind_ret.
  - intros acc k. unfold stack_step. repeat step_bind.
Qed.

Lemma iterate_mapM (lf : Image) (c : ImageCollection) :
  iterate (ndvi_clim_p lf) c [] = mapM (predict_step lf) c.
Proof.
  unfold iterate. rewrite foldM_mapM with (body := predict_step lf).
  - apply bind_ret.
  - intros acc k. unfold ndvi_clim_p, predict_step. repeat step_bind.
Qed.

Lemma ndvi_clim_r_coll_mapM (coll p : ImageCollection) (ys ye : Z) :
  ndvi_clim_r_coll coll p ys ye = mapM (ndvi_clim_r_img coll p) (pyrange ys ye).
Proof.
  unfold ndvi_clim_r_coll. rewrite foldM_mapM with (body := ndvi_clim_r_img coll p).
  - apply bind_ret.
  - intros acc k. reflexivity.
Qed.

Lemma mapM_length {A B} (body : A -> result B) (l : list A) (xs : list B) :
  mapM body l = Ok xs -> length xs = length l.
Proof.
  intros H. apply mapM_Forall2 in H. symmetry. exact (Forall2_length H).
Qed.

(** The residual collection has one image per year of
    [range(year_start, year_end)]: [year_end - year_start] images, one less
    than [period] when the range is not empty. *)
Lemma residual_series_length (coll p r : ImageCollection) (ys ye : Z) :
  ndvi_clim_r_coll coll p ys ye = Ok r ->
  length r = Z.to_nat (ye - ys)
  /\ (ys <= ye -> Z.of_nat (length r) = period ys ye - 1).
Proof.
  rewrite ndvi_clim_r_coll_mapM. intros H. apply mapM_length in H.
  rewrite pyrange_length in H. unfold period. split; lia.
Qed.

Lemma select_one_bands (img x : Image) (n : string) :
  select img [n] = Ok x -> exists m p, bands x = [(m, p)].
Proof.
  unfold select. cbn [mapM bind].
  destruct (find_band n (bands img)) as [[m p]|]; cbn [bind]; [|discriminate].
  intros H. inversion H. exists m, p. reflexivity.
Qed.

Lemma median_select_bands (c sel : ImageCollection) (n : string) :
  select_coll c [n] = Ok sel ->
  bands (median sel) = [] \/ exists m p, bands (median sel) = [(m, p)].
Proof.
  unfold select_coll. destruct c as [|img c]; cbn [mapM bind].
  - intros H. inversion H. left. reflexivity.
  - destruct (select img [n]) as [x|e] eqn:E; cbn [bind]; [|discriminate].
    destruct (mapM _ c) as [xs|e]; cbn [bind]; [|discriminate].
    intros H. inversion H. subst sel. right.
    destruct (select_one_bands _ _ _ E) as [m [p Hb]].
    unfold median, reduce_coll. rewrite Hb. cbn. eexists. eexists. reflexivity.
Qed.

(** An image of the paired stack: bands [ndvi], [clim], [year] and the year
    as property. *)
Lemma stack_step_shape (o c : ImageCollection) (k : Z) (img : Image) :
  stack_step o c k = Ok img ->
  year img = Some k
  /\ exists a b,
      bands img = [("ndvi", a); ("clim", b); ("year", Some (inject_Z k))].
Proof.
  unfold stack_step.
  destruct (select_coll (filter_year o k) ["ndvi"]) as [ns|e] eqn:En; cbn [bind];
    [|discriminate].
  destruct (select_coll (filter_year c k) ["ndvi"]) as [cs|e] eqn:Ec; cbn [bind];
    [|discriminate].
  unfold rename, addBands, constant. cbn [bands year time_start].
  destruct (median_select_bands _ _ _ En) as [Hn|[m [a Hn]]];
    destruct (median_select_bands _ _ _ Ec) as [Hc|[m' [b Hc]]];
    rewrite Hn, Hc; cbn; try discriminate.
  intros H. inversion H. cbn. split; [reflexivity|].
  exists a, b. reflexivity.
Qed.

(** ** Prediction and residuals *)

(** The median of a collection holding one one-band image is that band. *)
Lemma median_single_bands (x : Image) (n : string) (p : pixel) :
  bands x = [(n, p)] -> bands (median [x]) = [(String.append n EmptyString, p)].
Proof.
  destruct x as [bs yy tt]. cbn [bands]. intros ->.
  destruct p as [v|]; reflexivity.
Qed.

(** C8: for every year [y] of the range, the predicted index is
    [offset + scale * climate[y]] with the offset and scale of the single
    fit of the index on the climate, and the residual of that year is the
    observed index minus that prediction (masked where an operand is). *)
Theorem residual_is_observed_minus_predicted
        (modis : ImageCollection) (clim : Image) (ys ye : Z) (st : Stages) (y : Z)
        (Hst : stages modis clim ys ye = Ok st) (Hy : ys <= y < ye) :
  exists (ndvi_y clim_y offset scale : pixel) (img_y pred_y res_y : Image),
    bands (lf_clim_ndvi st) = [("scale", scale); ("offset", offset)]
    /\ filter_year (coll_1yr_o st) y = [img_y]
    /\ bands img_y = [("ndvi", ndvi_y); ("clim", clim_y); ("year", Some (inject_Z y))]
    /\ filter_year (ndvi_1yr_p st) y = [pred_y]
    /\ map snd (bands pred_y) = [lift2 qadd offset (lift2 qmul scale clim_y)]
    /\ nth_error (ndvi_1yr_r st) (Z.to_nat (y - ys)) = Some res_y
    /\ bands res_y
       = [("year", Some (inject_Z y));
          ("ndvi_res",
           lift2 qsub ndvi_y (lift2 qadd offset (lift2 qmul scale clim_y)))].
Proof.
  unfold stages in Hst.
  destruct (mapM qa_filter modis) as [m|] eqn:Em; cbn [bind] in Hst; [|discriminate].
  destruct (int_16d_1yr_o ys ye m) as [o|] eqn:Eo; cbn [bind] in Hst; [|discriminate].
  destruct (int_15d_1yr_clim _) as [c|] eqn:Ec; cbn [bind] in Hst; [|discriminate].
  destruct (stack o c ys ye) as [coll|] eqn:Es; cbn [bind] in Hst; [|discriminate].
  destruct (select_coll coll ["clim"; "ndvi"]) as [xy|] eqn:Exy; cbn [bind] in Hst;
    [|discriminate].
  destruct (select_coll coll ["clim"]) as [cl|] eqn:Ecl; cbn [bind] in Hst;
    [|discriminate].
  destruct (iterate _ cl []) as [p|] eqn:Ep; cbn [bind] in Hst; [|discriminate].
  destruct (ndvi_clim_r_coll coll p ys ye) as [r|] eqn:Er; cbn [bind] in Hst;
    [|discriminate].
  inversion Hst. subst st. clear Hst. cbn [lf_clim_ndvi coll_1yr_o ndvi_1yr_p ndvi_1yr_r].
  assert (Hin : In y (pyrange ys ye)) by (apply in_pyrange; exact Hy).
  (* the paired stack *)
  rewrite stack_mapM in Es.
  apply (mapM_map no_image) in Es as [Hcoll HF].
  set (F := fun k => unwrap no_image (stack_step o c k)) in *.
  assert (HFshape : forall k, In k (pyrange ys ye) ->
            year (F k) = Some k /\
            exists a b, bands (F k) = [("ndvi", a); ("clim", b); ("year", Some (inject_Z k))]).
  { intros k Hk. apply (stack_step_shape o c). apply HF. exact Hk. }
  destruct (HFshape y Hin) as [HyF [a [b HbF]]].
  (* the climate-to-index fit *)
  assert (Hlf : exists s0 o0,
             bands (reduce_linearFit xy) = [("scale", s0); ("offset", o0)]).
  { pose proof (mapM_length _ _ _ Exy) as Hlen.
    rewrite Hcoll, length_map, pyrange_length in Hlen.
    destruct xy as [|x xy']; [cbn in Hlen; lia|].
    unfold reduce_linearFit. destruct (linearFit_px _) as [s0 o0].
    exists s0, o0. reflexivity. }
  destruct Hlf as [s0 [o0 Hlf]].
  (* the climate band of each year *)
  unfold select_coll in Ecl.
  apply (mapM_map no_image) in Ecl as [Hcl HG].
  set (G := fun x => unwrap no_image (select x ["clim"])) in *.
  assert (HGF : forall k, In k (pyrange ys ye) ->
            year (G (F k)) = Some k /\
            exists bk, bands (F k) = [("ndvi", fst bk); ("clim", snd bk);
                                      ("year", Some (inject_Z k))]
                       /\ bands (G (F k)) = [("clim", snd bk)]).
  { intros k Hk. destruct (HFshape k Hk) as [Hyk [ak [bk Hbk]]].
    assert (Hsel : select (F k) ["clim"]
                   = Ok (mkImage [("clim", bk)] (year (F k)) (time_start (F k)))).
    { apply select_one. rewrite Hbk. reflexivity. }
    unfold G. rewrite Hsel. cbn [unwrap year bands]. split; [exact Hyk|].
    exists (ak, bk). split; [exact Hbk|reflexivity]. }
  (* the predicted index of each year *)
  rewrite iterate_mapM in Ep.
  apply (mapM_map no_image) in Ep as [Hp _].
  assert (HH : forall img,
            unwrap no_image (predict_step (reduce_linearFit xy) img)
            = set_year (add (mkImage [("offset", o0)] None None)
                            (multiply (mkImage [("scale", s0)] None None) img))
                       (year img)).
  { intros img. unfold predict_step.
    rewrite (select_one _ "offset" o0) by (rewrite Hlf; reflexivity).
    rewrite (select_one _ "scale" s0) by (rewrite Hlf; reflexivity).
    cbn [bind unwrap].
    destruct xy; reflexivity. }
  set (P := fun k => set_year
                       (add (mkImage [("offset", o0)] None None)
                            (multiply (mkImage [("scale", s0)] None None) (G (F k))))
                       (year (G (F k)))).
  assert (Hp' : p = map P (pyrange ys ye)).
  { rewrite Hp, Hcl, Hcoll, !map_map. apply map_ext. intros k. apply HH. }
  assert (Hpy : filter_year p y = [P y]).
  { rewrite Hp'. apply filter_year_map; [apply pyrange_NoDup| |exact Hin].
    intros k Hk. unfold P. cbn [set_year year]. apply (HGF k Hk). }
  assert (Hcy : filter_year coll y = [F y]).
  { rewrite Hcoll. apply filter_year_map; [apply pyrange_NoDup| |exact Hin].
    intros k Hk. apply (HFshape k Hk). }
  assert (HbG : bands (G (F y)) = [("clim", b)]).
  { destruct (HGF y Hin) as [_ [[a' b'] [Hb1 Hb2]]].
    rewrite HbF in Hb1. inversion Hb1. exact Hb2. }
  assert (HbP : bands (P y) = [("offset", lift2 qadd o0 (lift2 qmul s0 b))]).
  { unfold P, set_year, add, multiply, binop. cbn [bands]. rewrite HbG. reflexivity. }
  (* the residual of the year *)
  rewrite ndvi_clim_r_coll_mapM in Er. apply mapM_Forall2 in Er.
  destruct (Forall2_lookup _ _ _ _ _ Er (pyrange_nth_error ys ye y Hy))
    as [res_y [Hnth Hres]].
  exists a, b, o0, s0, (F y), (P y), res_y.
  repeat split; try assumption.
  - rewrite HbP. reflexivity.
  - unfold ndvi_clim_r_img in Hres. rewrite Hcy, Hpy in Hres.
    unfold select_coll in Hres. cbn [mapM] in Hres.
    rewrite (select_one (F y) "ndvi" a) in Hres by (rewrite HbF; reflexivity).
    cbn [bind] in Hres.
    unfold rename, addBands, subtract, binop, constant in Hres.
    cbn [bands year time_start] in Hres.
    rewrite (median_single_bands _ "ndvi" a) in Hres by reflexivity.
    rewrite (median_single_bands _ _ _ HbP) in Hres.
    cbn in Hres. inversion Hres. reflexivity.
Qed.

Lemma residual_is_observed_minus_predicted_witness :
  exists (st : Stages) (ndvi_y clim_y offset scale : pixel) (res_y : Image),
    stages modis_ex clim_ex 2003 2015 = Ok st
    /\ nth_error (ndvi_1yr_r st) 7 = Some res_y
    /\ bands res_y
       = [("year", Some 2010%Q);
          ("ndvi_res",
           lift2 qsub ndvi_y (lift2 qadd offset (lift2 qmul scale clim_y)))].
Proof.
  destruct (stages modis_ex clim_ex 2003 2015) as [st|e] eqn:E.
  - destruct (residual_is_observed_minus_predicted
                modis_ex clim_ex 2003 2015 st 2010 E ltac:(lia))
      as [a [b [o [s [img [pred [res [_ [_ [_ [_ [_ [Hnth Hres]]]]]]]]]]]]].
    exists st, a, b, o, s, res. repeat split; assumption.
  - exfalso. vm_compute in E. discriminate E.
Defined.

(** ** The length of the residual series *)

(** C4 fails on the code: for the default years 2003 to 2015 the residual
    series fitted by the second regression holds the twelve years 2003 to
    2014, without 2015, while [period] is 13. *)
Theorem residual_series_misses_year_end :
  (st <- stages modis_ex clim_ex 2003 2015 ;;
   Ok (map (fun img => band_at (bands img) 0) (ndvi_1yr_r st)))
  = Ok (map (fun y => Some (inject_Z y))
            [2003; 2004; 2005; 2006; 2007; 2008; 2009; 2010; 2011; 2012; 2013; 2014])
  /\ (st <- stages modis_ex clim_ex 2003 2015 ;;
      Ok (Z.of_nat (length (ndvi_1yr_r st)))) = Ok 12
  /\ period 2003 2015 = 13.
Proof. vm_compute. repeat split. Qed.

(** ** The index pairs of [mann_kendall_stat] *)

Lemma pyrange_cons (a b : Z) : a < b -> pyrange a b = a :: pyrange (a + 1) b.
Proof.
  intros H. unfold pyrange.
  replace (Z.to_nat (b - a)) with (S (Z.to_nat (b - (a + 1)))) by lia.
  cbn [seq map]. f_equal; [lia|].
  rewrite <- seq_shift, map_map. apply map_ext. intros i. lia.
Qed.

Lemma pyrange_nil (a b : Z) : b <= a -> pyrange a b = [].
Proof.
  intros H. unfold pyrange. replace (Z.to_nat (b - a)) with 0%nat by lia.
  reflexivity.
Qed.

(** The loops visit, in order, every pair [i < j] of the indices
    [a .. m - 1]: mapped through [g] they are all the pairs of the list of
    the [g i]. *)
Lemma visited_pairs {A} (g : Z -> A) (m : Z) (len : nat) :
  forall a, Z.to_nat (m - a) = len ->
  map (fun '(k, l) => (g k, g l))
      (flat_map (fun k => map (pair k) (pyrange (k + 1) m)) (pyrange a (m - 1)))
  = all_pairs (map g (pyrange a m)).
Proof.
  induction len as [|len IH]; intros a Hlen.
  - rewrite (pyrange_nil a (m - 1)) by lia. rewrite (pyrange_nil a m) by lia.
    reflexivity.
  - rewrite (pyrange_cons a m) by lia. cbn [map all_pairs].
    destruct (Z.eq_dec a (m - 1)) as [->|Hne].
    + rewrite (pyrange_nil (m - 1) (m - 1)) by lia.
      rewrite (pyrange_nil (m - 1 + 1) m) by lia. reflexivity.
    + rewrite (pyrange_cons a (m - 1)) by lia. cbn [flat_map].
      rewrite map_app, !map_map. f_equal. apply IH. lia.
Qed.

Lemma index_pairs_all_pairs {A} (g : Z -> A) (n : Z) :
  map (fun '(k, l) => (g k, g l)) (index_pairs n)
  = all_pairs (map g (pyrange 0 (n - 1))).
Proof.
  unfold index_pairs. replace (n - 2) with (n - 1 - 1) by lia.
  apply (visited_pairs g (n - 1) (Z.to_nat (n - 1 - 0))). reflexivity.
Qed.

Lemma index_pairs_in (n k l : Z) : In (k, l) (index_pairs n) -> 0 <= k < l /\ l < n - 1.
Proof.
  unfold index_pairs. rewrite in_flat_map. intros [j [Hj Hin]].
  apply in_pyrange in Hj. apply in_map_iff in Hin as [i [Hi Hin]].
  inversion Hi. subst. apply in_pyrange in Hin. lia.
Qed.

Lemma map_nth_pyrange {A} (ws : list A) (d : A) (m : nat) :
  (m <= length ws)%nat ->
  map (fun k => nth (Z.to_nat k) ws d) (pyrange 0 (Z.of_nat m)) = firstn m ws.
Proof.
  revert ws. induction m as [|m IH]; intros ws Hm; [reflexivity|].
  destruct ws as [|w ws]; [cbn in Hm; lia|].
  rewrite pyrange_cons by lia. cbn [map firstn Z.to_nat nth]. f_equal.
  rewrite <- (IH ws) by (cbn in Hm; lia).
  replace (Z.of_nat (S m)) with (Z.of_nat m + 1) by lia.
  unfold pyrange. replace (Z.to_nat (Z.of_nat m + 1 - (0 + 1))) with m by lia.
  replace (Z.to_nat (Z.of_nat m - 0)) with m by lia.
  rewrite !map_map. apply map_ext. intros i.
  replace (Z.to_nat (0 + 1 + Z.of_nat i)) with (S i) by lia.
  replace (Z.to_nat (0 + Z.of_nat i)) with i by lia. reflexivity.
Qed.

(** ** Counting with rationals in lowest terms *)

Lemma Qred_inject_Z (z : Z) : Qred (inject_Z z) = inject_Z z.
Proof.
  unfold Qred, inject_Z.
  pose proof (Z.ggcd_gcd z 1) as Hg.
  pose proof (Z.ggcd_correct_divisors z 1) as Hd.
  destruct (Z.ggcd z 1) as [g [aa bb]]. cbn [fst snd] in *.
  rewrite Z.gcd_1_r in Hg. subst g. destruct Hd as [Ha Hb].
  replace aa with z by lia. replace bb with 1 by lia. reflexivity.
Qed.

Lemma qadd_inject_Z (a b : Z) : qadd (inject_Z a) (inject_Z b) = inject_Z (a + b).
Proof.
  unfold qadd. rewrite <- (Qred_inject_Z (a + b)). apply Qred_complete.
  rewrite inject_Z_plus. reflexivity.
Qed.

Lemma qsub_inject_Z (a b : Z) : qsub (inject_Z a) (inject_Z b) = inject_Z (a - b).
Proof.
  unfold qsub. rewrite <- (Qred_inject_Z (a - b)). apply Qred_complete.
  unfold Z.sub. rewrite inject_Z_plus, inject_Z_opp. reflexivity.
Qed.

Lemma qbool_inject_Z (b : bool) : qbool b = inject_Z (Zbool b).
Proof. destruct b; reflexivity. Qed.

(** The sum of 0/1 comparison values is the number of ones. *)
Lemma qsum_qbool {A} (f : A -> bool) (l : list A) :
  qsum (map (fun x => qbool (f x)) l) = inject_Z (Z.of_nat (length (filter f l))).
Proof.
  unfold qsum. change 0%Q with (inject_Z 0).
  assert (H : forall a, fold_left qadd (map (fun x => qbool (f x)) l) (inject_Z a)
                        = inject_Z (a + Z.of_nat (length (filter f l)))).
  { induction l as [|x l IH]; intros a; cbn [map fold_left filter].
    - cbn. f_equal. lia.
    - rewrite qbool_inject_Z, qadd_inject_Z, IH.
      f_equal. destruct (f x); cbn [Zbool length]; lia. }
  rewrite H. reflexivity.
Qed.

(** ** Sums of one-band layers *)

Lemma column_values (n : string) (qs : list Q) :
  column (map (fun q => mkImage [(n, Some q)] None None) qs) 0 = qs.
Proof.
  unfold column. induction qs as [|q qs IH]; [reflexivity|].
  cbn [map flat_map]. cbn. f_equal. exact IH.
Qed.

Lemma sum_values (n : string) (qs : list Q) :
  qs <> [] ->
  sum (map (fun q => mkImage [(n, Some q)] None None) qs)
  = mkImage [(String.append n EmptyString, Some (qsum qs))] None None.
Proof.
  intros Hne. unfold sum, reduce_coll.
  destruct qs as [|q qs]; [contradiction|].
  cbn [map bands enumerate length seq combine].
  change (mkImage [(n, Some q)] None None
            :: map (fun q0 => mkImage [(n, Some q0)] None None) qs)
    with (map (fun q0 => mkImage [(n, Some q0)] None None) (q :: qs)).
  rewrite column_values. reflexivity.
Qed.

(** ** What [mann_kendall_stat] computes on valid layers *)

Lemma item_layers (ws : list Q) (k : Z) :
  0 <= k < Z.of_nat (length ws) ->
  item (layers ws) k = mkImage [("ndvi", Some (nth (Z.to_nat k) ws 0%Q))] None None.
Proof.
  intros Hk. unfold item, layers.
  rewrite nth_indep with (d' := mkImage [("ndvi", Some 0%Q)] None None)
    by (rewrite length_map; lia).
  apply (map_nth (fun v => mkImage [("ndvi", Some v)] None None)).
Qed.

Lemma filter_map_length {A B} (h : B -> bool) (m : A -> B) (l : list A) :
  length (filter (fun x => h (m x)) l) = length (filter h (map m l)).
Proof.
  induction l as [|x l IH]; [reflexivity|].
  cbn [map filter]. destruct (h (m x)); cbn [length]; rewrite IH; reflexivity.
Qed.

Lemma index_pairs_short (n : Z) : n < 3 -> index_pairs n = [].
Proof.
  intros H. unfold index_pairs.
  destruct (Z_lt_le_dec 0 (n - 2)) as [Hpos|Hneg].
  - rewrite (pyrange_cons 0 (n - 2)) by lia. lia.
  - rewrite pyrange_nil by lia. reflexivity.
Qed.

Lemma index_pairs_nonempty (n : Z) : 3 <= n -> index_pairs n <> [].
Proof.
  intros H. unfold index_pairs.
  rewrite (pyrange_cons 0 (n - 2)) by lia. cbn [flat_map].
  rewrite (pyrange_cons (0 + 1) (n - 1)) by lia. discriminate.
Qed.

(** The comparisons of the visited pairs, as images and as counts. *)
Lemma comparisons_sum (ws : list Q) (cmp : Q -> Q -> Q) (f : Q * Q -> bool)
      (op : Image -> Image -> Image) :
  op = binop cmp ->
  (forall x y, cmp x y = qbool (f (x, y))) ->
  3 <= Z.of_nat (length ws) ->
  sum (map (fun '(k, l) => op (item (layers ws) k) (item (layers ws) l))
           (index_pairs (Z.of_nat (length ws))))
  = mkImage [("ndvi",
              Some (inject_Z (count_pairs f (all_pairs (removelast ws)))))]
            None None.
Proof.
  intros -> Hcmp Hlen.
  set (n := Z.of_nat (length ws)).
  set (g := fun k => nth (Z.to_nat k) ws 0%Q).
  assert (Himg : map (fun '(k, l) => binop cmp (item (layers ws) k) (item (layers ws) l))
                     (index_pairs n)
                 = map (fun q => mkImage [("ndvi", Some q)] None None)
                       (map (fun p => qbool (f (g (fst p), g (snd p)))) (index_pairs n))).
  { rewrite map_map. apply map_ext_in. intros [k l] Hin.
    apply index_pairs_in in Hin.
    rewrite !item_layers by (fold n; lia).
    rewrite binop_single. cbn [lift2 fst snd]. rewrite Hcmp. reflexivity. }
  rewrite Himg. rewrite sum_values.
  - cbn [String.append]. do 4 f_equal.
    rewrite (qsum_qbool (fun p => f (g (fst p), g (snd p)))). f_equal.
    unfold count_pairs. f_equal.
    rewrite (filter_map_length f (fun p => (g (fst p), g (snd p)))). do 2 f_equal.
    assert (Hmap : map (fun p : Z * Z => (g (fst p), g (snd p))) (index_pairs n)
                   = map (fun '(k, l) => (g k, g l)) (index_pairs n)).
    { apply map_ext. intros [k l]. reflexivity. }
    rewrite Hmap, index_pairs_all_pairs. f_equal.
    replace (n - 1) with (Z.of_nat (length ws - 1)) by (unfold n; lia).
    unfold g. rewrite map_nth_pyrange by lia.
    rewrite removelast_firstn_len. f_equal. lia.
  - intros Hnil. apply map_eq_nil in Hnil.
    exact (index_pairs_nonempty n Hlen Hnil).
Qed.

(** On a stack of valid layers [mann_kendall_stat] returns the statistic
    of the first 50 layers without the last of them. *)
Lemma mann_kendall_stat_layers (vs : list Q) :
  mann_kendall_stat (layers vs) = Ok (S_image (firstn 50 vs)).
Proof.
  rewrite mann_kendall_stat_pairs. cbv zeta.
  assert (HT : firstn 50 (layers vs) = layers (firstn 50 vs))
    by (unfold layers; apply firstn_map).
  rewrite !HT. set (ws := firstn 50 vs).
  assert (Hlen : length (layers ws) = length ws)
    by (unfold layers; apply length_map).
  rewrite !Hlen. unfold S_image.
  destruct (Nat.ltb_spec (length ws) 3) as [Hshort|Hlong].
  - rewrite index_pairs_short by lia. reflexivity.
  - rewrite (comparisons_sum ws qlt concordant lt eq_refl) by (try reflexivity; lia).
    rewrite (comparisons_sum ws qgt discordant gt eq_refl) by (try reflexivity; lia).
    unfold subtract. rewrite binop_single. cbn [lift2].
    rewrite qsub_inject_Z. reflexivity.
Qed.

(** ** The statistic over all pairs: reversal and relabeling *)

Lemma count_pairs_app (f : Q * Q -> bool) (l1 l2 : list (Q * Q)) :
  count_pairs f (l1 ++ l2) = count_pairs f l1 + count_pairs f l2.
Proof. unfold count_pairs. rewrite filter_app, length_app. lia. Qed.

Lemma count_pairs_with (f : Q * Q -> bool) (a : Q) (l : list Q) :
  count_pairs f (map (pair a) l) = Z.of_nat (length (filter (fun y => f (a, y)) l)).
Proof. unfold count_pairs. rewrite <- filter_map_length. reflexivity. Qed.

Lemma count_pairs_snoc (f : Q * Q -> bool) (l : list Q) (x : Q) :
  count_pairs f (all_pairs (l ++ [x]))
  = count_pairs f (all_pairs l) + Z.of_nat (length (filter (fun y => f (y, x)) l)).
Proof.
  induction l as [|a l IH]; [reflexivity|].
  cbn [app all_pairs filter]. rewrite !count_pairs_app, IH, map_app.
  rewrite count_pairs_app. cbn [map]. unfold count_pairs at 2. cbn [filter].
  destruct (f (a, x)); cbn [length]; lia.
Qed.

Lemma count_pairs_rev (f : Q * Q -> bool) (l : list Q) :
  count_pairs f (all_pairs (rev l))
  = count_pairs (fun p => f (snd p, fst p)) (all_pairs l).
Proof.
  induction l as [|a l IH]; [reflexivity|].
  cbn [rev all_pairs]. rewrite count_pairs_snoc, count_pairs_app, IH.
  rewrite count_pairs_with. cbn [fst snd].
  rewrite filter_rev, length_rev. lia.
Qed.

(** Over all pairs, reversing the series negates S. *)
Lemma mann_kendall_S_rev (vs : list Q) :
  mann_kendall_S (rev vs) = - mann_kendall_S vs.
Proof.
  unfold mann_kendall_S. rewrite !count_pairs_rev.
  unfold concordant, discordant. cbn [fst snd]. lia.
Qed.

Lemma qltb_iff (x y : Q) : qltb x y = true <-> (x < y)%Q.
Proof.
  unfold qltb. split.
  - intros H. apply Qnot_le_lt. intros Hle. apply Qle_bool_iff in Hle.
    rewrite Hle in H. discriminate.
  - intros H. destruct (Qle_bool y x) eqn:E; [|reflexivity].
    apply Qle_bool_iff in E. exfalso. exact (Qlt_not_le _ _ H E).
Qed.

Lemma increasing_qltb (f : Q -> Q) :
  (forall x y, (x < y)%Q -> (f x < f y)%Q) ->
  (forall x y, (x == y)%Q -> (f x == f y)%Q) ->
  forall x y, qltb (f x) (f y) = qltb x y.
Proof.
  intros Hinc Heq x y.
  destruct (qltb x y) eqn:E.
  - apply qltb_iff. apply Hinc. apply qltb_iff. exact E.
  - destruct (qltb (f x) (f y)) eqn:E'; [|reflexivity].
    apply qltb_iff in E'. exfalso.
    destruct (Q_dec x y) as [[Hlt|Hgt]|Hxy].
    + apply qltb_iff in Hlt. congruence.
    + apply Hinc in Hgt. exact (Qlt_irrefl _ (Qlt_trans _ _ _ E' Hgt)).
    + apply Heq in Hxy. rewrite Hxy in E'. exact (Qlt_irrefl _ E').
Qed.

Lemma all_pairs_map {A B} (f : A -> B) (l : list A) :
  all_pairs (map f l) = map (fun p => (f (fst p), f (snd p))) (all_pairs l).
Proof.
  induction l as [|a l IH]; [reflexivity|].
  cbn [map all_pairs]. rewrite map_app, !map_map, IH. reflexivity.
Qed.

(** Over all pairs, an increasing relabeling of the values keeps S. *)
Lemma mann_kendall_S_relabel (f : Q -> Q) (vs : list Q) :
  (forall x y, (x < y)%Q -> (f x < f y)%Q) ->
  (forall x y, (x == y)%Q -> (f x == f y)%Q) ->
  mann_kendall_S (map f vs) = mann_kendall_S vs.
Proof.
  intros Hinc Heq. unfold mann_kendall_S, count_pairs.
  rewrite all_pairs_map, <- !filter_map_length.
  assert (Hc : forall p, concordant (f (fst p), f (snd p)) = concordant p).
  { intros [x y]. apply (increasing_qltb f Hinc Heq). }
  assert (Hd : forall p, discordant (f (fst p), f (snd p)) = discordant p).
  { intros [x y]. apply (increasing_qltb f Hinc Heq). }
  rewrite (filter_ext _ _ Hc), (filter_ext _ _ Hd). reflexivity.
Qed.

Lemma removelast_map {A B} (f : A -> B) (l : list A) :
  removelast (map f l) = map f (removelast l).
Proof.
  rewrite !removelast_firstn_len, length_map. apply firstn_map.
Qed.

(** The code keeps its result under an increasing relabeling too. *)
Lemma mann_kendall_stat_relabel (f : Q -> Q) (vs : list Q) :
  (forall x y, (x < y)%Q -> (f x < f y)%Q) ->
  (forall x y, (x == y)%Q -> (f x == f y)%Q) ->
  mann_kendall_stat (layers (map f vs)) = mann_kendall_stat (layers vs).
Proof.
  intros Hinc Heq. rewrite !mann_kendall_stat_layers. f_equal.
  unfold S_image. rewrite firstn_map, length_map, removelast_map.
  rewrite (mann_kendall_S_relabel f _ Hinc Heq). reflexivity.
Qed.

(** ** Where the loops stop *)

Lemma all_pairs_length {A} (l : list A) :
  2 * Z.of_nat (length (all_pairs l))
  = Z.of_nat (length l) * (Z.of_nat (length l) - 1).
Proof.
  induction l as [|a l IH]; [reflexivity|].
  cbn [all_pairs length]. rewrite length_app, length_map. nia.
Qed.

(** On [n] items the loops visit [(n-1)(n-2)/2] pairs, not [n(n-1)/2]. *)
Lemma index_pairs_count (n : Z) :
  1 <= n -> 2 * Z.of_nat (length (index_pairs n)) = (n - 1) * (n - 2).
Proof.
  intros Hn.
  rewrite <- (length_map (fun '(k, l) => (k, l)) (index_pairs n)).
  rewrite (index_pairs_all_pairs (fun k => k) n), all_pairs_length.
  rewrite length_map, pyrange_length. nia.
Qed.

(** C1 fails on the code: on the three layers 1, 2, 3 the loops visit the
    single pair (0, 1) and return S = 1; the three pairs of the stack give
    S = 3.  No pair with the last layer is compared. *)
Theorem mann_kendall_stat_skips_last_layer :
  index_pairs 3 = [(0, 1)]
  /\ mann_kendall_stat (layers [1; 2; 3]%Q)
     = Ok (mkImage [("ndvi", Some 1%Q)] None None)
  /\ mann_kendall_S [1; 2; 3]%Q = 3
  /\ length (all_pairs [1; 2; 3]%Q) = 3%nat.
Proof. vm_compute. repeat split. Qed.

(** C5 fails on the code in its reversal half: the tie-free series 1, 3, 2
    and its reversal 2, 3, 1 both get S = 1 from the code (each time from
    the first two layers), where the reversal should get -1. *)
Theorem mann_kendall_stat_reversal_not_negated :
  mann_kendall_stat (layers [1; 3; 2]%Q)
  = Ok (mkImage [("ndvi", Some 1%Q)] None None)
  /\ mann_kendall_stat (layers (rev [1; 3; 2]%Q))
     = Ok (mkImage [("ndvi", Some 1%Q)] None None)
  /\ mann_kendall_S [1; 3; 2]%Q = 1
  /\ mann_kendall_S (rev [1; 3; 2]%Q) = -1.
Proof. vm_compute. repeat split. Qed.

(** * Further properties of the code *)

(** ** The quality filter on any image *)

Lemma find_band_found (n : string) (bs : list band) (b : band) :
  find_band n bs = Some b -> fst b = n.
Proof.
  induction bs as [|[m p] bs IH]; simpl; [discriminate|].
  destruct (String.eqb_spec m n) as [->|_]; [|exact IH].
  intros H. inversion H. reflexivity.
Qed.

Lemma select_one_inv (img x : Image) (n : string) :
  select img [n] = Ok x ->
  exists p, find_band n (bands img) = Some (n, p)
            /\ x = mkImage [(n, p)] (year img) (time_start img).
Proof.
  unfold select. cbn [mapM bind].
  destruct (find_band n (bands img)) as [[m p]|] eqn:E; cbn [bind]; [|discriminate].
  intros H. inversion H. pose proof (find_band_found _ _ _ E) as Hm.
  cbn [fst] in Hm. subst m. exists p. split; reflexivity.
Qed.

Lemma select_missing (img : Image) (n : string) :
  find_band n (bands img) = None -> select img [n] = Err BandNotFound.
Proof. intros H. unfold select. cbn [mapM bind]. rewrite H. reflexivity. Qed.

Lemma updateMask_px_cases (p m : pixel) :
  updateMask_px p m = p \/ updateMask_px p m = None.
Proof.
  destruct p as [x|], m as [v|]; cbn; try (right; reflexivity).
  destruct (qltb 0 v); [left|right]; reflexivity.
Qed.

(** Whatever the flag, the filter returns one band, [NDVI], with the
    properties of the input image; its pixel is the input's NDVI pixel or a
    masked pixel, never another value, and it is masked when the flag itself
    is masked. *)
Theorem qa_filter_keeps_or_masks (img x : Image) (H : qa_filter img = Ok x) :
  exists ndvi p,
    find_band "NDVI" (bands img) = Some ("NDVI", ndvi)
    /\ bands x = [("NDVI", p)]
    /\ (p = ndvi \/ p = None)
    /\ (find_band "SummaryQA" (bands img) = Some ("SummaryQA", None) -> p = None)
    /\ year x = year img
    /\ time_start x = time_start img.
Proof.
  unfold qa_filter in H.
  destruct (select img ["SummaryQA"]) as [qa|e] eqn:Eqa; cbn [bind] in H;
    [|discriminate].
  destruct (select img ["NDVI"]) as [nd|e] eqn:End; cbn [bind] in H; [|discriminate].
  destruct (select_one_inv _ _ _ Eqa) as [q [Hq ->]].
  destruct (select_one_inv _ _ _ End) as [ndvi [Hn ->]].
  rewrite !where_single in H. unfold eq_, constant in H.
  rewrite !binop_single in H. cbn [bands band_at] in H.
  rewrite updateMask_single in H.
  inversion H. subst x. clear H. cbn [bands year time_start].
  eexists ndvi, _. split; [exact Hn|]. split; [reflexivity|].
  split; [apply updateMask_px_cases|]. split; [|split; reflexivity].
  intros Hmasked. rewrite Hmasked in Hq. inversion Hq. subst q.
  cbn. destruct ndvi; reflexivity.
Qed.

Lemma qa_filter_keeps_or_masks_witness :
  exists ndvi p,
    find_band "NDVI" (bands (modis_img (2003, 1, 1) (Some 5000%Q) None))
    = Some ("NDVI", ndvi)
    /\ p = None
    /\ (p = ndvi \/ p = None).
Proof.
  destruct (qa_filter_keeps_or_masks
              (modis_img (2003, 1, 1) (Some 5000%Q) None)
              (mkImage [("NDVI", None)] None (Some (2003, 1, 1))) eq_refl)
    as [ndvi [p [Hn [Hb [Hp [Hm _]]]]]].
  exists ndvi, p. split; [exact Hn|]. split; [apply Hm; reflexivity|exact Hp].
Defined.

(** An image without a [SummaryQA] band or without an [NDVI] band makes
    the filter fail: no band is made up. *)
Theorem qa_filter_missing_band (img : Image)
        (H : find_band "SummaryQA" (bands img) = None
             \/ find_band "NDVI" (bands img) = None) :
  qa_filter img = Err BandNotFound.
Proof.
  unfold qa_filter.
  destruct (find_band "SummaryQA" (bands img)) as [[m q]|] eqn:Eq.
  - destruct H as [H|H]; [discriminate|].
    pose proof (find_band_found _ _ _ Eq) as Hm. cbn [fst] in Hm. subst m.
    rewrite (select_one _ _ _ Eq). cbn [bind].
    rewrite (select_missing _ _ H). reflexivity.
  - rewrite (select_missing _ _ Eq). reflexivity.
Qed.

Lemma qa_filter_missing_band_witness :
  qa_filter (mkImage [("NDVI", Some 5000%Q)] None (Some (2003, 1, 1)))
  = Err BandNotFound
  /\ qa_filter (mkImage [("SummaryQA", Some 0%Q)] None (Some (2003, 1, 1)))
     = Err BandNotFound.
Proof.
  split.
  - apply qa_filter_missing_band. left. reflexivity.
  - apply qa_filter_missing_band. right. reflexivity.
Defined.

(** ** The area of interest: wrappers, missing keys, empty lists *)

(** A Feature and a FeatureCollection give the coordinates, the type and
    the region of the geometry they wrap, when that geometry is an object
    that has itself no ['features'] and no ['geometry'] key. *)
Theorem wrapper_same_as_geometry (g : json) (kv : list (string * json))
        (Hw : wraps g (JObj kv))
        (Hf : assoc "features" kv = None)
        (Hg : assoc "geometry" kv = None) :
  get_coords g = get_coords (JObj kv)
  /\ get_type g = get_type (JObj kv)
  /\ get_region g = get_region (JObj kv).
Proof.
  assert (Hc : get_coords (JObj kv) = dict_get (JObj kv) "coordinates").
  { unfold get_coords. cbn [dict_get bind]. rewrite Hf, Hg. reflexivity. }
  assert (Ht : get_type (JObj kv) = dict_get (JObj kv) "type").
  { unfold get_type. cbn [dict_get bind]. rewrite Hf, Hg. reflexivity. }
  assert (Hgc : get_coords g = dict_get (JObj kv) "coordinates").
  { unfold get_coords. destruct Hw as [[H1 H2]|[f [others [H1 H2]]]].
    - rewrite H1. cbn [bind is_not_None]. rewrite H2. reflexivity.
    - rewrite H1. cbn [bind is_not_None subscript0]. rewrite H2. reflexivity. }
  assert (Hgt : get_type g = dict_get (JObj kv) "type").
  { unfold get_type. destruct Hw as [[H1 H2]|[f [others [H1 H2]]]].
    - rewrite H1. cbn [bind is_not_None]. rewrite H2. reflexivity.
    - rewrite H1. cbn [bind is_not_None subscript0]. rewrite H2. reflexivity. }
  split; [congruence|]. split; [congruence|].
  unfold get_region. rewrite Hc, Ht, Hgc, Hgt. reflexivity.
Qed.

Lemma wrapper_same_as_geometry_witness :
  get_region default_poly
  = get_region (JObj [("type", JStr "Polygon");
                      ("coordinates", unwrap JNull (get_coords default_poly))])
  /\ get_type default_poly = Ok (JStr "Polygon").
Proof.
  destruct (wrapper_same_as_geometry default_poly
              [("type", JStr "Polygon");
               ("coordinates", unwrap JNull (get_coords default_poly))])
    as [_ [Ht Hr]].
  - right. eexists. exists []. split; reflexivity.
  - reflexivity.
  - reflexivity.
  - split; [exact Hr|]. rewrite Ht. reflexivity.
Defined.

(** An empty feature list stops all three readers with an [IndexError],
    whatever else the object holds. *)
Theorem empty_feature_list_fails (g : json)
        (H : dict_get g "features" = Ok (JArr [])) :
  get_coords g = Err IndexError
  /\ get_type g = Err IndexError
  /\ get_region g = Err IndexError.
Proof.
  assert (Hc : get_coords g = Err IndexError).
  { unfold get_coords. rewrite H. reflexivity. }
  assert (Ht : get_type g = Err IndexError).
  { unfold get_type. rewrite H. reflexivity. }
  repeat split; try assumption.
  unfold get_region. rewrite Hc. reflexivity.
Qed.

Lemma empty_feature_list_fails_witness :
  get_coords (JObj [("type", JStr "FeatureCollection"); ("features", JArr []);
                    ("coordinates", JArr [])])
  = Err IndexError.
Proof.
  apply (empty_feature_list_fails
           (JObj [("type", JStr "FeatureCollection"); ("features", JArr []);
                  ("coordinates", JArr [])]) eq_refl).
Defined.

(** An object with none of the keys ['features'], ['geometry'] and
    ['coordinates'] is not refused by [get_coords]: the region is [None].
    Without a ['type'] [get_region] fails, but [restrend_pointwise] only
    reads the coordinates, so a run that succeeds exports the region
    [None]. *)
Theorem missing_keys_give_None (kv : list (string * json))
        (Hf : assoc "features" kv = None)
        (Hg : assoc "geometry" kv = None)
        (Hc : assoc "coordinates" kv = None) :
  get_coords (JObj kv) = Ok JNull
  /\ (assoc "type" kv = None -> get_region (JObj kv) = Err AttributeError)
  /\ (forall modis clim ys ye id e,
         restrend_pointwise modis clim ys ye (JObj kv) id = Ok e ->
         region e = JNull).
Proof.
  assert (H : get_coords (JObj kv) = Ok JNull).
  { unfold get_coords. cbn [dict_get bind]. rewrite Hf, Hg, Hc. reflexivity. }
  split; [exact H|]. split.
  - intros Ht. unfold get_region. rewrite H. cbn [bind].
    unfold get_type. cbn [dict_get bind]. rewrite Hf, Hg, Ht. reflexivity.
  - intros modis clim ys ye id e He.
    rewrite restrend_pointwise_stages, H in He. cbn [bind] in He.
    destruct (stages modis clim ys ye) as [st|]; cbn [bind] in He; [|discriminate].
    unfold finish in He.
    repeat match type of He with
           | bind ?c _ = _ => destruct c; cbn [bind] in He; [|discriminate]
           end.
    inversion He. reflexivity.
Qed.

Lemma missing_keys_give_None_witness :
  get_coords (JObj [("name", JStr "Senegal")]) = Ok JNull
  /\ get_region (JObj [("name", JStr "Senegal")]) = Err AttributeError
  /\ (e <- restrend_pointwise modis_ex clim_ex 2003 2015
                              (JObj [("name", JStr "Senegal")]) "run" ;;
      Ok (region e)) = Ok JNull.
Proof.
  destruct (missing_keys_give_None [("name", JStr "Senegal")]
              eq_refl eq_refl eq_refl) as [Hc [Hr Hp]].
  split; [exact Hc|]. split; [apply Hr; reflexivity|].
  destruct (restrend_pointwise modis_ex clim_ex 2003 2015
              (JObj [("name", JStr "Senegal")]) "run") as [e|err] eqn:E.
  - cbn [bind]. f_equal. apply (Hp _ _ _ _ _ _ E).
  - exfalso. vm_compute in E. discriminate E.
Defined.

(** ** The critical values grow with the period *)

Lemma sorted_nth_error (l : list Z) :
  Sorted.StronglySorted Z.lt l ->
  forall i j a b, (i < j)%nat -> nth_error l i = Some a -> nth_error l j = Some b ->
                  a < b.
Proof.
  induction 1 as [|x l Hs IH Hall]; intros i j a b Hij Ha Hb.
  - destruct i; discriminate.
  - destruct j as [|j]; [lia|]. cbn in Hb. destruct i as [|i]; cbn in Ha.
    + inversion Ha. subst a. rewrite Forall_forall in Hall.
      apply Hall. eapply nth_error_In. exact Hb.
    + apply (IH i j); [lia|assumption|assumption].
Qed.

Lemma coefficients_sorted : Sorted.StronglySorted Z.lt coefficients.
Proof.
  unfold coefficients.
  repeat (constructor; [|repeat (constructor; [reflexivity|]); constructor]).
  constructor.
Qed.

Lemma array_get_inv (a : list Z) (i v : Z) :
  array_get a i = Ok v -> 0 <= i /\ nth_error a (Z.to_nat i) = Some v.
Proof.
  unfold array_get. destruct (Z.ltb_spec i 0) as [|Hi]; [discriminate|].
  destruct (nth_error a (Z.to_nat i)) as [x|]; [|discriminate].
  intros H. inversion H. split; [exact Hi|reflexivity].
Qed.

(** A longer period never has a smaller critical value: between two
    periods the table serves, the lookup is strictly increasing. *)
Theorem kendall_strictly_increasing (p q a b : Z)
        (Hpq : p < q) (Hp : kendall p = Ok a) (Hq : kendall q = Ok b) :
  a < b.
Proof.
  unfold kendall in *.
  apply array_get_inv in Hp as [Hp0 Hp]. apply array_get_inv in Hq as [Hq0 Hq].
  apply (sorted_nth_error coefficients coefficients_sorted
           (Z.to_nat (p - 4)) (Z.to_nat (q - 4))); [lia|assumption|assumption].
Qed.

Lemma kendall_strictly_increasing_witness : 26 < 31.
Proof.
  apply (kendall_strictly_increasing 13 14 26 31); [lia|reflexivity|reflexivity].
Defined.

(** ** The entry point *)

(** [run] returns [False] exactly when the area it ends up with is empty
    in Python's sense; the area it falls back on is not, so a call without
    ['geojson'] never returns [False]. *)
Theorem run_returns_False_iff (modis : ImageCollection) (clim : Image)
        (params : Params) :
  (run modis clim params = Ok None
   <-> truthy (get_default (p_geojson params) default_poly) = false)
  /\ (p_geojson params = None -> run modis clim params <> Ok None).
Proof.
  assert (Hiff : run modis clim params = Ok None
                 <-> truthy (get_default (p_geojson params) default_poly) = false).
  { unfold run.
    destruct (truthy (get_default (p_geojson params) default_poly)); cbn [negb].
    - split; [|discriminate].
      destruct (restrend_pointwise _ _ _ _ _ _); cbn [bind]; discriminate.
    - split; reflexivity. }
  split; [exact Hiff|].
  intros Hnone Hrun. apply Hiff in Hrun. rewrite Hnone in Hrun.
  cbn in Hrun. discriminate Hrun.
Qed.

(** ** The annual climate layers *)

Lemma mapM_all_ok {A B} (body : A -> result B) (h : A -> B) (l : list A) :
  (forall k, In k l -> body k = Ok (h k)) -> mapM body l = Ok (map h l).
Proof.
  induction l as [|k l IH]; intros H; cbn [mapM map bind]; [reflexivity|].
  rewrite (H k (or_introl eq_refl)). cbn [bind].
  rewrite IH; [reflexivity|]. intros j Hj. apply H. right. exact Hj.
Qed.

(** When every step either succeeds or fails with [e], and one fails, the
    loop fails with [e]. *)
Lemma mapM_first_err {A B} (body : A -> result B) (e : error) (l : list A) (k : A) :
  (forall j, In j l -> body j = Err e \/ is_ok (body j)) ->
  In k l -> body k = Err e -> mapM body l = Err e.
Proof.
  induction l as [|j l IH]; intros Hall Hin Hk; [destruct Hin|].
  cbn [mapM]. destruct (Hall j (or_introl eq_refl)) as [Hj|Hj].
  - rewrite Hj. reflexivity.
  - destruct (body j) as [x|e'] eqn:E; [|destruct Hj]. cbn [bind].
    destruct Hin as [->|Hin]; [congruence|].
    rewrite IH; [reflexivity| |exact Hin|exact Hk].
    intros i Hi. apply Hall. right. exact Hi.
Qed.

Lemma skipn_nth_error {A} (l : list A) (n : nat) (x : A) :
  nth_error l n = Some x -> skipn n l = x :: skipn (S n) l.
Proof.
  revert l. induction n as [|n IH]; intros [|y l] H; try discriminate.
  - inversion H. reflexivity.
  - cbn in H. cbn [skipn]. rewrite (IH l H). reflexivity.
Qed.

Lemma select_idx_range (img : Image) (len : nat) :
  forall a b, Z.to_nat (b - a) = len -> 0 <= a -> b <= Z.of_nat (length (bands img)) ->
  select_idx img (pyrange a b)
  = Ok (mkImage (firstn len (skipn (Z.to_nat a) (bands img)))
                (year img) (time_start img)).
Proof.
  unfold select_idx. induction len as [|len IH]; intros a b Hlen Ha Hb.
  - rewrite pyrange_nil by lia. reflexivity.
  - rewrite pyrange_cons by lia. cbn [mapM].
    destruct (Z.ltb_spec a 0) as [|_]; [lia|].
    destruct (nth_error (bands img) (Z.to_nat a)) as [x|] eqn:E.
    + cbn [bind]. specialize (IH (a + 1) b ltac:(lia) ltac:(lia) Hb).
      destruct (mapM _ (pyrange (a + 1) b)) as [xs|]; cbn [bind] in *;
        [|discriminate].
      inversion IH as [Hxs]. rewrite (skipn_nth_error _ _ _ E). cbn [firstn].
      replace (Z.to_nat (a + 1)) with (S (Z.to_nat a)) by lia. reflexivity.
    + apply nth_error_None in E. lia.
Qed.

Lemma select_idx_short (img : Image) (a b : Z) :
  0 <= a < b -> Z.of_nat (length (bands img)) < b ->
  select_idx img (pyrange a b) = Err BandNotFound.
Proof.
  intros Hab Hb. unfold select_idx.
  rewrite (mapM_first_err _ BandNotFound _ (b - 1)); [reflexivity| | |].
  - intros j Hj. destruct (j <? 0); [left; reflexivity|].
    destruct (nth_error (bands img) (Z.to_nat j)); [right; exact I|left; reflexivity].
  - apply in_pyrange. lia.
  - destruct (Z.ltb_spec (b - 1) 0) as [|_]; [reflexivity|].
    destruct (nth_error (bands img) (Z.to_nat (b - 1))) eqn:E; [|reflexivity].
    assert (N : nth_error (bands img) (Z.to_nat (b - 1)) <> None) by congruence.
    apply nth_error_Some in N. lia.
Qed.

Lemma int_15d_1yr_clim_mapM (img : Image) :
  int_15d_1yr_clim img = mapM (clim_step img) (pyrange 1 34).
Proof.
  unfold int_15d_1yr_clim. rewrite foldM_mapM with (body := clim_step img).
  - apply bind_ret.
  - intros acc k. unfold clim_step. repeat step_bind.
Qed.

Lemma clim_step_ok (img : Image) (k : Z) :
  1 <= k -> k * 24 <= Z.of_nat (length (bands img)) ->
  clim_step img k = Ok (clim_layer (bands img) k).
Proof.
  intros Hk Hlen. unfold clim_step.
  rewrite (select_idx_range img 24) by lia. reflexivity.
Qed.

Lemma clim_step_short (img : Image) (k : Z) :
  1 <= k -> Z.of_nat (length (bands img)) < k * 24 ->
  clim_step img k = Err BandNotFound.
Proof.
  intros Hk Hlen. unfold clim_step.
  rewrite select_idx_short by lia. reflexivity.
Qed.

(** A climate stack of fewer than 33 x 24 = 792 bands makes the annual
    integration fail: no year is produced from a partial stack. *)
Theorem int_15d_1yr_clim_needs_792_bands (img : Image)
        (H : (length (bands img) < 792)%nat) :
  int_15d_1yr_clim img = Err BandNotFound.
Proof.
  rewrite int_15d_1yr_clim_mapM.
  apply (mapM_first_err _ BandNotFound _ 33).
  - intros k Hk. apply in_pyrange in Hk.
    destruct (Z_le_gt_dec (k * 24) (Z.of_nat (length (bands img)))) as [Hle|Hgt].
    + right. rewrite clim_step_ok by lia. exact I.
    + left. apply clim_step_short; lia.
  - apply in_pyrange. lia.
  - apply clim_step_short; lia.
Qed.

Lemma int_15d_1yr_clim_needs_792_bands_witness :
  int_15d_1yr_clim (mkImage (firstn 791 (bands clim_ex)) None None)
  = Err BandNotFound.
Proof.
  apply int_15d_1yr_clim_needs_792_bands. vm_compute. lia.
Defined.

(** With 792 bands or more the integration returns 33 layers, for the
    years 1982 to 2014 in order; the layer of year [1981 + k] is the mean
    of the valid values of bands [24 (k - 1)] to [24 k - 1], masked when
    none is valid. *)
Theorem int_15d_1yr_clim_layers (img : Image)
        (H : (792 <= length (bands img))%nat) :
  int_15d_1yr_clim img = Ok (map (clim_layer (bands img)) (pyrange 1 34)).
Proof.
  rewrite int_15d_1yr_clim_mapM. apply mapM_all_ok.
  intros k Hk. apply in_pyrange in Hk. apply clim_step_ok; lia.
Qed.

Lemma int_15d_1yr_clim_layers_witness :
  int_15d_1yr_clim clim_ex = Ok (map (clim_layer (bands clim_ex)) (pyrange 1 34))
  /\ nth_error (map (clim_layer (bands clim_ex)) (pyrange 1 34)) 21
     = Some (mkImage [("ndvi", Some 3020%Q)] (Some 2003) None).
Proof.
  split.
  - apply int_15d_1yr_clim_layers. vm_compute. lia.
  - vm_compute. reflexivity.
Defined.

(** ** The annual index layers *)

Lemma int_16d_1yr_o_mapM (ys ye : Z) (coll : ImageCollection) :
  int_16d_1yr_o ys ye coll = mapM (int_16d_step coll) (pyrange ys ye).
Proof.
  unfold int_16d_1yr_o. rewrite foldM_mapM with (body := int_16d_step coll).
  - apply bind_ret.
  - intros acc k. unfold int_16d_step. repeat step_bind.
Qed.

Lemma select_ndvi_only (img : Image) :
  find_band "NDVI" (bands img) <> None -> select img ["NDVI"] = Ok (ndvi_only img).
Proof.
  intros H. unfold ndvi_only, ndvi_px.
  destruct (find_band "NDVI" (bands img)) as [[m p]|] eqn:E; [|contradiction].
  pose proof (find_band_found _ _ _ E) as Hm. cbn [fst] in Hm. subst m.
  apply select_one. exact E.
Qed.

Lemma select_coll_ndvi_only (coll : ImageCollection) :
  (forall img, In img coll -> find_band "NDVI" (bands img) <> None) ->
  select_coll coll ["NDVI"] = Ok (map ndvi_only coll).
Proof.
  intros H. unfold select_coll. apply mapM_all_ok.
  intros img Hin. apply select_ndvi_only. apply H. exact Hin.
Qed.

Lemma filterDate_ndvi_only (coll : ImageCollection) (s e : Z * Z * Z) :
  filterDate (map ndvi_only coll) s e = map ndvi_only (filterDate coll s e).
Proof.
  unfold filterDate. induction coll as [|img coll IH]; [reflexivity|].
  cbn [map filter].
  change (in_dates s e (ndvi_only img)) with (in_dates s e img).
  destruct (in_dates s e img); cbn [map]; rewrite IH; reflexivity.
Qed.

Lemma column_ndvi_only (coll : ImageCollection) :
  column (map ndvi_only coll) 0 = ndvi_values coll.
Proof.
  unfold column, ndvi_values. induction coll as [|img coll IH]; [reflexivity|].
  cbn [map flat_map]. rewrite IH. reflexivity.
Qed.

Lemma reduce_mean_ndvi_only (F : ImageCollection) :
  F <> [] ->
  reduce_mean (map ndvi_only F)
  = mkImage [("NDVI_mean", r_mean (ndvi_values F))] None None.
Proof.
  intros HF. rewrite <- column_ndvi_only.
  destruct F as [|img F]; [contradiction|]. reflexivity.
Qed.

Lemma int_16d_step_ok (coll : ImageCollection) (k : Z) :
  (forall img, In img coll -> find_band "NDVI" (bands img) <> None) ->
  filterDate coll (k, 1, 1) (k, 12, 31) <> [] ->
  int_16d_step coll k = Ok (annual_ndvi coll k).
Proof.
  intros Hband Hyear. unfold int_16d_step.
  rewrite (select_coll_ndvi_only coll Hband). cbn [bind].
  rewrite filterDate_ndvi_only.
  unfold annual_ndvi.
  rewrite (reduce_mean_ndvi_only _ Hyear). reflexivity.
Qed.

(** When every image of the collection has an [NDVI] band and every year
    of [range(year_start, year_end)] has an image within its dates, the
    annual resampling succeeds with one layer per year of the range, in
    order: the mean of the year's valid NDVI values times 0.0001 (masked
    when none is valid), with the year as second band and as property. *)
Theorem int_16d_1yr_o_layers (ys ye : Z) (coll : ImageCollection)
        (Hband : forall img, In img coll -> find_band "NDVI" (bands img) <> None)
        (Hyear : forall k, ys <= k < ye ->
                           filterDate coll (k, 1, 1) (k, 12, 31) <> []) :
  int_16d_1yr_o ys ye coll = Ok (map (annual_ndvi coll) (pyrange ys ye)).
Proof.
  rewrite int_16d_1yr_o_mapM. apply mapM_all_ok.
  intros k Hk. apply in_pyrange in Hk.
  apply int_16d_step_ok; [exact Hband|apply Hyear; exact Hk].
Qed.

Lemma int_16d_1yr_o_layers_witness :
  int_16d_1yr_o 2003 2015 modis_ex
  = Ok (map (annual_ndvi modis_ex) (pyrange 2003 2015)).
Proof.
  apply int_16d_1yr_o_layers.
  - intros img Hin. unfold modis_ex in Hin. apply in_map_iff in Hin as [y [<- _]].
    cbn. discriminate.
  - intros k Hk.
    assert (Hcases : k = 2003 \/ k = 2004 \/ k = 2005 \/ k = 2006 \/ k = 2007
                     \/ k = 2008 \/ k = 2009 \/ k = 2010 \/ k = 2011 \/ k = 2012
                     \/ k = 2013 \/ k = 2014) by lia.
    repeat (destruct Hcases as [->|Hcases]; [vm_compute; discriminate|]).
    subst k. vm_compute. discriminate.
Defined.

Lemma mapM_app {A B} (f : A -> result B) (l1 l2 : list A) :
  mapM f (l1 ++ l2) = (xs <- mapM f l1 ;; ys <- mapM f l2 ;; Ok (xs ++ ys)).
Proof.
  induction l1 as [|a l1 IH]; cbn [app mapM bind].
  - destruct (mapM f l2); reflexivity.
  - destruct (f a) as [x|e]; cbn [bind]; [|reflexivity].
    rewrite IH. destruct (mapM f l1) as [xs|e]; cbn [bind]; [|reflexivity].
    destruct (mapM f l2) as [ys|e]; cbn [bind]; reflexivity.
Qed.

Lemma december_31_outside (y k : Z) (img : Image) :
  time_start img = Some (y, 12, 31) -> in_dates (k, 1, 1) (k, 12, 31) img = false.
Proof.
  intros H. unfold in_dates. rewrite H. unfold date_ltb.
  destruct (Z.ltb_spec y k), (Z.eqb_spec y k), (Z.ltb_spec k y), (Z.eqb_spec k y);
    cbn; try lia; reflexivity.
Qed.

(** An image dated 31 December never enters an annual layer: the date
    filter of every year ends before that day, so the resampling returns
    the same with the image and without it. *)
Theorem december_31_never_contributes
        (ys ye y : Z) (c1 c2 : ImageCollection) (img : Image)
        (Hdate : time_start img = Some (y, 12, 31))
        (Hband : find_band "NDVI" (bands img) <> None) :
  int_16d_1yr_o ys ye (c1 ++ img :: c2) = int_16d_1yr_o ys ye (c1 ++ c2).
Proof.
  rewrite !int_16d_1yr_o_mapM.
  assert (Hstep : forall k, int_16d_step (c1 ++ img :: c2) k = int_16d_step (c1 ++ c2) k).
  { intros k. unfold int_16d_step, select_coll.
    rewrite !mapM_app. cbn [mapM].
    rewrite (select_ndvi_only img Hband). cbn [bind].
    destruct (mapM (fun i => select i ["NDVI"]) c1) as [s1|e]; cbn [bind];
      [|reflexivity].
    destruct (mapM (fun i => select i ["NDVI"]) c2) as [s2|e]; cbn [bind];
      [|reflexivity].
    unfold filterDate. rewrite !filter_app. cbn [filter].
    rewrite (december_31_outside y k (ndvi_only img) Hdate). reflexivity. }
  induction (pyrange ys ye) as [|k l IH]; [reflexivity|].
  cbn [mapM]. rewrite Hstep, IH. reflexivity.
Qed.

Lemma december_31_never_contributes_witness :
  int_16d_1yr_o 2003 2015
    (modis_ex ++ modis_img (2008, 12, 31) (Some 9999%Q) (Some 0%Q) :: [])
  = int_16d_1yr_o 2003 2015 (modis_ex ++ []).
Proof.
  apply (december_31_never_contributes 2003 2015 2008).
  - reflexivity.
  - cbn. discriminate.
Defined.

(** ** What a successful run went through *)

Ltac bind_inv H :=
  match type of H with
  | bind ?c _ = Ok _ =>
      let E := fresh "E" in
      destruct c eqn:E; cbn [bind] in H; [|discriminate H]
  end.

Lemma stages_inv modis clim ys ye st :
  stages modis clim ys ye = Ok st ->
  exists m xy cl,
    mapM qa_filter modis = Ok m
    /\ int_16d_1yr_o ys ye m = Ok (ndvi_1yr_o st)
    /\ int_15d_1yr_clim (divide clim (constant 10000)) = Ok (clim_1yr_o st)
    /\ stack (ndvi_1yr_o st) (clim_1yr_o st) ys ye = Ok (coll_1yr_o st)
    /\ select_coll (coll_1yr_o st) ["clim"; "ndvi"] = Ok xy
    /\ lf_clim_ndvi st = reduce_linearFit xy
    /\ select_coll (coll_1yr_o st) ["clim"] = Ok cl
    /\ iterate (ndvi_clim_p (lf_clim_ndvi st)) cl [] = Ok (ndvi_1yr_p st)
    /\ ndvi_clim_r_coll (coll_1yr_o st) (ndvi_1yr_p st) ys ye = Ok (ndvi_1yr_r st).
Proof.
  unfold stages. intros H. repeat bind_inv H. inversion H. subst st.
  cbn [ndvi_1yr_o clim_1yr_o coll_1yr_o lf_clim_ndvi ndvi_1yr_p ndvi_1yr_r].
  eexists _, _, _. repeat split; eassumption.
Qed.

Lemma restrend_pointwise_inv modis clim ys ye geojson id e :
  restrend_pointwise modis clim ys ye geojson id = Ok e ->
  exists st ty K obs mk,
    get_coords geojson = Ok (region e)
    /\ stages modis clim ys ye = Ok st
    /\ select_coll (ndvi_1yr_r st) ["year"; "ndvi_res"] = Ok ty
    /\ kendall (period ys ye) = Ok K
    /\ select_coll (ndvi_1yr_o st) ["ndvi"] = Ok obs
    /\ mann_kendall_stat obs = Ok mk
    /\ export_image (reduce_linearFit ty) mk K = Ok (image e)
    /\ e = mkExport (image e) id id "ldmt" 10000000000 250 (region e).
Proof.
  rewrite restrend_pointwise_stages. intros H.
  bind_inv H. bind_inv H. unfold finish in H. repeat bind_inv H.
  inversion H. subst e. cbn [image region].
  eexists _, _, _, _, _. repeat split; eassumption.
Qed.

(** In a run whose stages succeed the annual index series, the paired
    stack, the predictions and the residuals all have
    [year_end - year_start] images, and the climate series has 33. *)
Theorem stages_series_lengths modis clim ys ye st
        (H : stages modis clim ys ye = Ok st) :
  length (ndvi_1yr_o st) = Z.to_nat (ye - ys)
  /\ length (coll_1yr_o st) = Z.to_nat (ye - ys)
  /\ length (ndvi_1yr_p st) = Z.to_nat (ye - ys)
  /\ length (ndvi_1yr_r st) = Z.to_nat (ye - ys)
  /\ length (clim_1yr_o st) = 33%nat.
Proof.
  destruct (stages_inv _ _ _ _ _ H)
    as [m [xy [cl [_ [Ho [Hc [Hs [_ [_ [Hcl [Hp Hr]]]]]]]]]]].
  rewrite int_16d_1yr_o_mapM in Ho. apply mapM_length in Ho.
  rewrite int_15d_1yr_clim_mapM in Hc. apply mapM_length in Hc.
  rewrite stack_mapM in Hs. apply mapM_length in Hs.
  apply mapM_length in Hcl.
  rewrite iterate_mapM in Hp. apply mapM_length in Hp.
  rewrite ndvi_clim_r_coll_mapM in Hr. apply mapM_length in Hr.
  rewrite pyrange_length in *.
  repeat split; lia.
Qed.

Lemma stages_series_lengths_witness :
  (st <- stages modis_ex clim_ex 2003 2015 ;;
   Ok (length (ndvi_1yr_o st), length (ndvi_1yr_r st), length (clim_1yr_o st)))
  = Ok (12%nat, 12%nat, 33%nat).
Proof.
  destruct (stages modis_ex clim_ex 2003 2015) as [st|e] eqn:E.
  - destruct (stages_series_lengths _ _ _ _ _ E) as [Ho [_ [_ [Hr Hc]]]].
    cbn [bind]. rewrite Ho, Hr, Hc. reflexivity.
  - exfalso. vm_compute in E. discriminate E.
Defined.

Lemma export_image_shape (lf mk : Image) (K : Z) (img : Image) :
  export_image lf mk K = Ok img -> exists v, bands img = [("scale", Some v)].
Proof.
  unfold export_image. intros H. bind_inv H.
  destruct (select_one_inv _ _ _ E) as [p [_ ->]].
  rewrite !where_single, unmask_single in H. inversion H. cbn [bands].
  match goal with
  | |- exists v, [(_, unmask_px ?q _)] = _ => destruct q as [x|]
  end; eexists; reflexivity.
Qed.

(** A run that succeeds exports exactly one band, [scale], and its pixel
    is never masked; the request names the bucket [ldmt], a scale of 250
    and 10^10 pixels, uses the identifier as description and as file
    prefix, and its region is what [get_coords] returns. *)
Theorem export_request_shape modis clim ys ye geojson id e
        (H : restrend_pointwise modis clim ys ye geojson id = Ok e) :
  (exists v, bands (image e) = [("scale", Some v)])
  /\ description e = id
  /\ fileNamePrefix e = id
  /\ bucket e = "ldmt"
  /\ maxPixels e = 10000000000
  /\ scale e = 250
  /\ get_coords geojson = Ok (region e).
Proof.
  destruct (restrend_pointwise_inv _ _ _ _ _ _ _ H)
    as [st [ty [K [obs [mk [Hc [_ [_ [_ [_ [_ [Himg He]]]]]]]]]]]].
  split; [exact (export_image_shape _ _ _ _ Himg)|].
  rewrite He. cbn. repeat split. rewrite He in Hc. exact Hc.
Qed.

Lemma export_request_shape_witness :
  (e <- restrend_pointwise modis_ex clim_ex 2003 2015 aoi "run" ;;
   Ok (description e, bucket e, scale e)) = Ok ("run", "ldmt", 250).
Proof.
  destruct (restrend_pointwise modis_ex clim_ex 2003 2015 aoi "run") as [e|err] eqn:E.
  - destruct (export_request_shape _ _ _ _ _ _ _ E) as [_ [Hd [_ [Hb [_ [Hs _]]]]]].
    cbn [bind]. rewrite Hd, Hb, Hs. reflexivity.
  - exfalso. vm_compute in E. discriminate E.
Defined.

(** The exported pixel does not depend on the area of interest or on the
    identifier: two runs on the same data and years that both succeed
    export the same image. *)
Theorem image_independent_of_area modis clim ys ye g g' id id' e e'
        (H : restrend_pointwise modis clim ys ye g id = Ok e)
        (H' : restrend_pointwise modis clim ys ye g' id' = Ok e') :
  image e = image e'.
Proof.
  destruct (restrend_pointwise_inv _ _ _ _ _ _ _ H)
    as [st [ty [K [obs [mk [_ [Hst [Hty [HK [Hobs [Hmk [Himg _]]]]]]]]]]]].
  destruct (restrend_pointwise_inv _ _ _ _ _ _ _ H')
    as [st' [ty' [K' [obs' [mk' [_ [Hst' [Hty' [HK' [Hobs' [Hmk' [Himg' _]]]]]]]]]]]].
  rewrite Hst in Hst'. inversion Hst'. subst st'.
  rewrite Hty in Hty'. inversion Hty'. subst ty'.
  rewrite HK in HK'. inversion HK'. subst K'.
  rewrite Hobs in Hobs'. inversion Hobs'. subst obs'.
  rewrite Hmk in Hmk'. inversion Hmk'. subst mk'.
  rewrite Himg in Himg'. inversion Himg'. reflexivity.
Qed.

Lemma image_independent_of_area_witness :
  (e <- restrend_pointwise modis_ex clim_ex 2003 2015 aoi "run" ;; Ok (image e))
  = (e <- restrend_pointwise modis_ex clim_ex 2003 2015 default_poly "other" ;;
     Ok (image e)).
Proof.
  destruct (restrend_pointwise modis_ex clim_ex 2003 2015 aoi "run") as [e|err] eqn:E;
    [|exfalso; vm_compute in E; discriminate E].
  destruct (restrend_pointwise modis_ex clim_ex 2003 2015 default_poly "other")
    as [e'|err] eqn:E'; [|exfalso; vm_compute in E'; discriminate E'].
  cbn [bind]. f_equal.
  exact (image_independent_of_area _ _ _ _ _ _ _ _ _ _ E E').
Defined.

(** ** The years a run can cover *)

Lemma int_15d_1yr_clim_inv (img : Image) (c : ImageCollection) :
  int_15d_1yr_clim img = Ok c -> c = map (clim_layer (bands img)) (pyrange 1 34).
Proof.
  rewrite int_15d_1yr_clim_mapM. intros H.
  apply (mapM_map no_image) in H as [-> Hall].
  apply map_ext_in. intros k Hk. specialize (Hall k Hk). apply in_pyrange in Hk.
  destruct (Z_le_gt_dec (k * 24) (Z.of_nat (length (bands img)))) as [Hle|Hgt].
  - rewrite clim_step_ok by lia. reflexivity.
  - rewrite clim_step_short in Hall by lia. discriminate Hall.
Qed.

Lemma filter_year_absent (f : Z -> Image) (l : list Z) (y : Z) :
  (forall j, In j l -> year (f j) <> Some y) -> filter_year (map f l) y = [].
Proof.
  unfold filter_year. induction l as [|j l IH]; intros H; [reflexivity|].
  cbn [map filter]. unfold has_year at 1.
  destruct (year (f j)) as [z|] eqn:E.
  - destruct (Z.eqb_spec z y) as [->|_].
    + exfalso. apply (H j (or_introl eq_refl)). exact E.
    + apply IH. intros i Hi. apply H. right. exact Hi.
  - apply IH. intros i Hi. apply H. right. exact Hi.
Qed.

(** The climate series has no layer for a year before 1982 or after 2014. *)
Lemma no_climate_layer (img : Image) (c : ImageCollection) (k : Z) :
  int_15d_1yr_clim img = Ok c -> k < 1982 \/ 2014 < k -> filter_year c k = [].
Proof.
  intros H Hk. rewrite (int_15d_1yr_clim_inv _ _ H).
  apply filter_year_absent. intros j Hj. apply in_pyrange in Hj.
  unfold clim_layer. cbn [year]. intros E.
  assert (E' : 1981 + j = k) by congruence. lia.
Qed.

(** Without a climate layer for the year, the step of [stack] fails: the
    three names of the [rename] meet at most two bands. *)
Lemma stack_step_no_clim (o c : ImageCollection) (k : Z) :
  filter_year c k = [] -> is_err (stack_step o c k).
Proof.
  intros Hc. unfold stack_step. rewrite Hc.
  destruct (select_coll (filter_year o k) ["ndvi"]) as [ns|e] eqn:En; cbn [bind];
    [|exact I].
  unfold rename, addBands, constant. cbn [bands year time_start].
  destruct (median_select_bands _ _ _ En) as [Hn|[m [a Hn]]]; rewrite Hn; exact I.
Qed.

(** A run can only succeed for years the data and the table cover: the
    first year not before 1982, [year_end] not after 2015, and between 4
    and 34 for [period].  The table's entries for the periods 35 to 40
    are out of reach. *)
Theorem restrend_pointwise_year_bounds modis clim ys ye geojson id e
        (H : restrend_pointwise modis clim ys ye geojson id = Ok e) :
  1982 <= ys /\ ye <= 2015 /\ 4 <= period ys ye <= 34.
Proof.
  destruct (restrend_pointwise_inv _ _ _ _ _ _ _ H)
    as [st [ty [K [obs [mk [_ [Hst [_ [HK _]]]]]]]]].
  destruct (stages_inv _ _ _ _ _ Hst) as [m [xy [cl [_ [_ [Hc [Hs _]]]]]]].
  unfold kendall in HK. apply array_get_inv in HK as [Hlow Hnth].
  assert (Hhigh : (Z.to_nat (period ys ye - 4) < length coefficients)%nat).
  { apply nth_error_Some. congruence. }
  rewrite coefficients_length in Hhigh. unfold period in *.
  rewrite stack_mapM in Hs. apply (mapM_map no_image) in Hs as [_ Hall].
  assert (Hin : forall k, ys <= k < ye -> 1982 <= k <= 2014).
  { intros k Hk.
    destruct (Z_lt_le_dec k 1982) as [Hlt|Hge1];
      [|destruct (Z_lt_le_dec 2014 k) as [Hgt|Hle2]; [|lia]].
    - pose proof (stack_step_no_clim (ndvi_1yr_o st) _ k
                    (no_climate_layer _ _ k Hc (or_introl Hlt))) as Herr.
      rewrite (Hall k) in Herr by (apply in_pyrange; exact Hk). destruct Herr.
    - pose proof (stack_step_no_clim (ndvi_1yr_o st) _ k
                    (no_climate_layer _ _ k Hc (or_intror Hgt))) as Herr.
      rewrite (Hall k) in Herr by (apply in_pyrange; exact Hk). destruct Herr. }
  pose proof (Hin ys ltac:(lia)). pose proof (Hin (ye - 1) ltac:(lia)). lia.
Qed.

Lemma restrend_pointwise_year_bounds_witness :
  1982 <= 2003 /\ 2015 <= 2015 /\ 4 <= period 2003 2015 <= 34.
Proof.
  destruct (restrend_pointwise modis_ex clim_ex 2003 2015 aoi "run") as [e|err] eqn:E.
  - exact (restrend_pointwise_year_bounds _ _ _ _ _ _ _ E).
  - exfalso. vm_compute in E. discriminate E.
Defined.

(** ** The statistic on layers that may be masked *)

Lemma one_band_bands (img : Image) :
  one_band img -> bands img = [(band_name img, value img)].
Proof.
  intros [n [p H]]. unfold band_name, value. rewrite H. reflexivity.
Qed.

Lemma binop_one_band (f : Q -> Q -> Q) (a b : Image) :
  one_band a -> one_band b ->
  binop f a b = mkImage [(band_name a, lift2 f (value a) (value b))] None None.
Proof.
  intros Ha Hb. unfold binop.
  rewrite (one_band_bands a Ha), (one_band_bands b Hb). reflexivity.
Qed.

Lemma column_one_band {A} (nm : A -> string) (px : A -> pixel) (l : list A) :
  column (map (fun p => mkImage [(nm p, px p)] None None) l) 0
  = valid_px (map px l).
Proof.
  unfold column, valid_px. induction l as [|p l IH]; [reflexivity|].
  cbn [map flat_map]. rewrite IH. cbn. destruct (px p); reflexivity.
Qed.

Lemma sum_one_band {A} (nm : A -> string) (px : A -> pixel) (l : list A) :
  l <> [] ->
  exists n,
    sum (map (fun p => mkImage [(nm p, px p)] None None) l)
    = mkImage [(n, r_sum (valid_px (map px l)))] None None.
Proof.
  intros Hne. rewrite <- (column_one_band nm px l).
  destruct l as [|p l]; [contradiction|].
  eexists. unfold sum, reduce_coll. cbn [map bands enumerate length seq combine].
  reflexivity.
Qed.

Lemma valid_px_lift2 (cmp : Q -> Q -> Q) (ps : list (pixel * pixel)) :
  valid_px (map (fun p => lift2 cmp (fst p) (snd p)) ps)
  = map (fun xy => cmp (fst xy) (snd xy)) (valid_pairs ps).
Proof.
  unfold valid_px, valid_pairs. induction ps as [|[a b] ps IH]; [reflexivity|].
  cbn [map flat_map fst snd]. rewrite IH.
  destruct a as [x|], b as [y|]; reflexivity.
Qed.

Lemma r_sum_comparisons (cmp : Q -> Q -> Q) (f : Q * Q -> bool) (v : list (Q * Q)) :
  (forall x y, cmp x y = qbool (f (x, y))) ->
  r_sum (map (fun xy => cmp (fst xy) (snd xy)) v)
  = match v with
    | [] => None
    | _ :: _ => Some (inject_Z (count_pairs f v))
    end.
Proof.
  intros Hcmp. destruct v as [|xy v]; [reflexivity|].
  assert (Hmap : map (fun xy0 : Q * Q => cmp (fst xy0) (snd xy0)) (xy :: v)
                 = map (fun xy0 => qbool (f xy0)) (xy :: v)).
  { apply map_ext. intros [x y]. apply Hcmp. }
  rewrite Hmap. unfold r_sum. cbn [map].
  change (qbool (f xy) :: map (fun xy0 => qbool (f xy0)) v)
    with (map (fun xy0 => qbool (f xy0)) (xy :: v)).
  rewrite qsum_qbool. reflexivity.
Qed.

Lemma item_one_band (T : ImageCollection) (k : Z) :
  Forall one_band T -> 0 <= k < Z.of_nat (length T) -> one_band (item T k).
Proof.
  intros HT Hk. rewrite Forall_forall in HT. apply HT.
  unfold item. apply nth_In. lia.
Qed.

(** The sum of the comparisons of the visited pairs, on one-band images. *)
Lemma comparisons_sum_masked (T : ImageCollection) (cmp : Q -> Q -> Q)
      (f : Q * Q -> bool) :
  Forall one_band T ->
  (forall x y, cmp x y = qbool (f (x, y))) ->
  3 <= Z.of_nat (length T) ->
  exists n,
    sum (map (fun '(k, l) => binop cmp (item T k) (item T l))
             (index_pairs (Z.of_nat (length T))))
    = mkImage [(n, match valid_pairs (all_pairs (removelast (map value T))) with
                   | [] => None
                   | v => Some (inject_Z (count_pairs f v))
                   end)] None None.
Proof.
  intros HT Hcmp Hlen.
  set (n := Z.of_nat (length T)).
  set (g := fun k => value (item T k)).
  assert (Himg : map (fun '(k, l) => binop cmp (item T k) (item T l)) (index_pairs n)
                 = map (fun p => mkImage [(band_name (item T (fst p)),
                                           lift2 cmp (g (fst p)) (g (snd p)))]
                                         None None)
                       (index_pairs n)).
  { apply map_ext_in. intros [k l] Hin. apply index_pairs_in in Hin.
    cbn [fst snd].
    apply binop_one_band; apply item_one_band; try assumption; fold n; lia. }
  rewrite Himg.
  destruct (sum_one_band (fun p => band_name (item T (fst p)))
                         (fun p => lift2 cmp (g (fst p)) (g (snd p)))
                         (index_pairs n) (index_pairs_nonempty n Hlen))
    as [nm Hsum].
  exists nm. rewrite Hsum. do 3 f_equal.
  assert (Hpairs : map (fun p : Z * Z => lift2 cmp (g (fst p)) (g (snd p))) (index_pairs n)
                   = map (fun p => lift2 cmp (fst p) (snd p))
                         (map (fun '(k, l) => (g k, g l)) (index_pairs n))).
  { rewrite map_map. apply map_ext. intros [k l]. reflexivity. }
  rewrite Hpairs, valid_px_lift2, index_pairs_all_pairs.
  rewrite (r_sum_comparisons cmp f _ Hcmp).
  assert (Hvals : map g (pyrange 0 (n - 1)) = removelast (map value T)).
  { replace (n - 1) with (Z.of_nat (length T - 1)) by (unfold n; lia).
    assert (Hg : forall k, g k = nth (Z.to_nat k) (map value T) (value no_image)).
    { intros k. unfold g, item. symmetry. apply map_nth. }
    rewrite (map_ext _ _ Hg).
    rewrite map_nth_pyrange by (rewrite length_map; lia).
    rewrite removelast_firstn_len, length_map. f_equal. lia. }
  rewrite Hvals.
  destruct (valid_pairs (all_pairs (removelast (map value T)))); reflexivity.
Qed.

Lemma mann_kendall_stat_one_band (c : ImageCollection)
        (Hone : Forall one_band c)
        (Hlen : (3 <= length (firstn 50 c))%nat) :
  exists mk,
    mann_kendall_stat c = Ok mk
    /\ one_band mk
    /\ value mk = S_pixel (removelast (firstn 50 (map value c))).
Proof.
  rewrite mann_kendall_stat_pairs. cbv zeta.
  set (T := firstn 50 c).
  assert (HT : Forall one_band T).
  { rewrite Forall_forall in *. intros img Hin. apply Hone.
    rewrite <- (firstn_skipn 50 c). apply in_or_app. left. exact Hin. }
  assert (HlenT : 3 <= Z.of_nat (length T)) by (unfold T; lia).
  destruct (comparisons_sum_masked T qlt concordant HT ltac:(reflexivity) HlenT)
    as [n1 H1].
  destruct (comparisons_sum_masked T qgt discordant HT ltac:(reflexivity) HlenT)
    as [n2 H2].
  unfold lt, gt. rewrite H1, H2.
  eexists. split; [reflexivity|].
  unfold subtract. rewrite binop_single. split.
  - eexists. eexists. reflexivity.
  - unfold S_pixel. cbv zeta. rewrite firstn_map. fold T.
    destruct (valid_pairs (all_pairs (removelast (map value T)))) as [|xy v];
      [reflexivity|].
    unfold value at 1. cbn [bands band_at lift2]. rewrite qsub_inject_Z. reflexivity.
Qed.

(** On a stack of at least three one-band layers, masked or not,
    [mann_kendall_stat] never fails; it returns S over the pairs of the
    first 50 layers without the last of them, a pair with a masked pixel
    counting for neither sum, and a masked pixel when no pair is valid. *)
Theorem mann_kendall_stat_masked (c : ImageCollection)
        (Hone : Forall one_band c)
        (Hlen : (3 <= length (firstn 50 c))%nat) :
  exists mk,
    mann_kendall_stat c = Ok mk
    /\ one_band mk
    /\ value mk = S_pixel (removelast (firstn 50 (map value c))).
Proof. exact (mann_kendall_stat_one_band c Hone Hlen). Qed.

Lemma mann_kendall_stat_masked_witness :
  exists mk,
    mann_kendall_stat
      (map (fun p => mkImage [("ndvi", p)] None None)
           [Some 1%Q; None; Some 3%Q; Some 2%Q; Some 0%Q])
    = Ok mk
    /\ value mk = Some 1%Q.
Proof.
  destruct (mann_kendall_stat_masked
              (map (fun p => mkImage [("ndvi", p)] None None)
                   [Some 1%Q; None; Some 3%Q; Some 2%Q; Some 0%Q]))
    as [mk [Hmk [_ Hv]]].
  - repeat constructor; eexists; eexists; reflexivity.
  - cbn. lia.
  - exists mk. split; [exact Hmk|]. rewrite Hv. reflexivity.
Defined.

Lemma valid_pairs_length (ps : list (pixel * pixel)) :
  (length (valid_pairs ps) <= length ps)%nat.
Proof.
  unfold valid_pairs. induction ps as [|[a b] ps IH]; [apply le_n|].
  cbn [flat_map length]. rewrite length_app.
  destruct a as [x|], b as [y|]; cbn [length]; lia.
Qed.

Lemma count_pairs_bounds (f : Q * Q -> bool) (v : list (Q * Q)) :
  0 <= count_pairs f v <= Z.of_nat (length v).
Proof.
  unfold count_pairs. pose proof (filter_length_le f v). lia.
Qed.

(** S over [m] pixels is an integer between [-m(m-1)/2] and [m(m-1)/2]. *)
Lemma S_pixel_bound (ps : list pixel) (v : Q) :
  S_pixel ps = Some v ->
  exists z, v = inject_Z z
            /\ 2 * Z.abs z <= Z.of_nat (length ps) * (Z.of_nat (length ps) - 1).
Proof.
  unfold S_pixel. cbv zeta.
  pose proof (valid_pairs_length (all_pairs ps)) as Hlen.
  pose proof (all_pairs_length ps) as Hall.
  destruct (valid_pairs (all_pairs ps)) as [|xy l] eqn:E; [discriminate|].
  intros H. inversion H. eexists. split; [reflexivity|].
  pose proof (count_pairs_bounds concordant (xy :: l)).
  pose proof (count_pairs_bounds discordant (xy :: l)). lia.
Qed.

(** The statistic [mann_kendall_stat] returns on [n] one-band layers is,
    where it is valid, an integer of absolute value at most
    [(n-1)(n-2)/2]. *)
Theorem mann_kendall_stat_bound (c : ImageCollection) (mk : Image) (v : Q)
        (Hone : Forall one_band c)
        (Hmk : mann_kendall_stat c = Ok mk)
        (Hv : value mk = Some v) :
  exists z, v = inject_Z z
            /\ 2 * Z.abs z
               <= (Z.of_nat (length c) - 1) * (Z.of_nat (length c) - 2).
Proof.
  destruct (Nat.ltb_spec (length (firstn 50 c)) 3) as [Hshort|Hlong].
  - rewrite mann_kendall_stat_pairs in Hmk. cbv zeta in Hmk.
    rewrite index_pairs_short in Hmk by lia. inversion Hmk. subst mk.
    discriminate Hv.
  - destruct (mann_kendall_stat_one_band c Hone Hlong) as [mk' [Hmk' [_ Hval]]].
    rewrite Hmk in Hmk'. inversion Hmk'. subst mk'.
    rewrite Hv in Hval. symmetry in Hval.
    destruct (S_pixel_bound _ _ Hval) as [z [Hz Hb]].
    exists z. split; [exact Hz|].
    rewrite removelast_firstn_len, length_firstn, length_firstn, length_map in Hb.
    rewrite length_firstn in Hlong. nia.
Qed.

Lemma mann_kendall_stat_bound_witness :
  exists z, 1%Q = inject_Z z /\ 2 * Z.abs z <= (5 - 1) * (5 - 2).
Proof.
  apply (mann_kendall_stat_bound
           (map (fun p => mkImage [("ndvi", p)] None None)
                [Some 1%Q; None; Some 3%Q; Some 2%Q; Some 0%Q])
           (mkImage [("ndvi", Some 1%Q)] None None) 1%Q).
  - repeat constructor; eexists; eexists; reflexivity.
  - reflexivity.
  - reflexivity.
Defined.

(** Only the first 50 layers of a stack are read: appending layers to a
    stack of 50 or more changes nothing. *)
Theorem mann_kendall_stat_reads_50 (c more : ImageCollection)
        (H : (50 <= length c)%nat) :
  mann_kendall_stat (c ++ more) = mann_kendall_stat c.
Proof.
  rewrite !mann_kendall_stat_pairs. cbv zeta.
  rewrite firstn_app.
  replace (50 - length c)%nat with 0%nat by lia.
  rewrite firstn_0, app_nil_r. reflexivity.
Qed.

Lemma mann_kendall_stat_reads_50_witness :
  mann_kendall_stat
    (layers (map inject_Z (pyrange 0 50)) ++ layers [1000%Q; (-5)%Q])
  = mann_kendall_stat (layers (map inject_Z (pyrange 0 50))).
Proof.
  apply mann_kendall_stat_reads_50. vm_compute. lia.
Defined.

(** ** The run as functions of the year *)

Lemma reduce_coll_one_band (sfx : string) (r : list Q -> pixel) (c : ImageCollection) :
  Forall one_band c ->
  bands (reduce_coll sfx r c) = [] \/ exists n p, bands (reduce_coll sfx r c) = [(n, p)].
Proof.
  intros H. destruct c as [|img c]; [left; reflexivity|]. right.
  inversion H as [|? ? [n [p Hb]] _]. subst.
  unfold reduce_coll. rewrite Hb. cbn. eexists. eexists. reflexivity.
Qed.

Lemma select_coll_one_band (c sel : ImageCollection) (n : string) :
  select_coll c [n] = Ok sel -> Forall one_band sel.
Proof.
  unfold select_coll. intros H. apply mapM_Forall2 in H.
  induction H as [|a b l l' Hab _ IH]; constructor; [|exact IH].
  destruct (select_one_bands _ _ _ Hab) as [m [p Hb]]. exists m, p. exact Hb.
Qed.

Lemma Forall_filter {A} (P : A -> Prop) (f : A -> bool) (l : list A) :
  Forall P l -> Forall P (filter f l).
Proof.
  intros H. rewrite Forall_forall in *. intros x Hx.
  apply filter_In in Hx as [Hx _]. apply H. exact Hx.
Qed.

(** An image of the annual index series: bands [ndvi] and [year], and the
    year as property. *)
Lemma int_16d_step_shape (coll : ImageCollection) (k : Z) (img : Image) :
  int_16d_step coll k = Ok img ->
  year img = Some k
  /\ exists a, bands img = [("ndvi", a); ("year", year_px k)].
Proof.
  unfold int_16d_step.
  destruct (select_coll coll ["NDVI"]) as [sel|e] eqn:Es; cbn [bind]; [|discriminate].
  pose proof (reduce_coll_one_band "_mean" r_mean _
                (Forall_filter _ (in_dates (k, 1, 1) (k, 12, 31)) _
                   (select_coll_one_band _ _ _ Es))) as Hb.
  unfold rename, addBands, multiply, binop, constant, reduce_mean, filterDate.
  cbn [bands year time_start].
  destruct Hb as [Hb|[n [p Hb]]]; rewrite Hb; cbn; [discriminate|].
  intros H. inversion H. cbn. split; [reflexivity|]. eexists. reflexivity.
Qed.

(** The [ndvi] band of the paired stack is the [ndvi] band of the annual
    layer of the same year. *)
Lemma stack_step_ndvi (o c : ImageCollection) (k : Z) (x img : Image) :
  filter_year o k = [x] ->
  stack_step o c k = Ok img ->
  year img = Some k
  /\ exists b, bands img = [("ndvi", band_px "ndvi" x); ("clim", b); ("year", year_px k)].
Proof.
  intros Hx. unfold stack_step. rewrite Hx.
  unfold select_coll at 1. cbn [mapM].
  destruct (select x ["ndvi"]) as [xs|e] eqn:Ex; cbn [bind]; [|discriminate].
  destruct (select_one_inv _ _ _ Ex) as [a [Ha ->]].
  assert (Hband : band_px "ndvi" x = a) by (unfold band_px; rewrite Ha; reflexivity).
  destruct (select_coll (filter_year c k) ["ndvi"]) as [cs|e] eqn:Ec; cbn [bind];
    [|discriminate].
  unfold rename, addBands, constant. cbn [bands year time_start].
  rewrite (median_single_bands _ "ndvi" a) by reflexivity.
  destruct (median_select_bands _ _ _ Ec) as [Hc|[m' [b Hc]]]; rewrite Hc; cbn;
    [discriminate|].
  intros H. inversion H. cbn. split; [reflexivity|].
  exists b. rewrite Hband. reflexivity.
Qed.

Lemma flat_map_ext_in {A B} (f g : A -> list B) (l : list A) :
  (forall a, In a l -> f a = g a) -> flat_map f l = flat_map g l.
Proof.
  induction l as [|a l IH]; intros H; [reflexivity|].
  cbn [flat_map]. rewrite (H a (or_introl eq_refl)), IH; [reflexivity|].
  intros b Hb. apply H. right. exact Hb.
Qed.

Lemma xy_pairs_map (h : Z -> Image) (X Y : Z -> pixel) (l : list Z) :
  (forall k, In k l -> exists n m, bands (h k) = [(n, X k); (m, Y k)]) ->
  xy_pairs (map h l) = fit_pairs X Y l.
Proof.
  intros H. unfold xy_pairs, fit_pairs. rewrite flat_map_concat_map, map_map.
  rewrite <- flat_map_concat_map. apply flat_map_ext_in.
  intros k Hk. destruct (H k Hk) as [n [m Hb]]. rewrite Hb.
  destruct (X k), (Y k); reflexivity.
Qed.

(** The stages of a run over a range that is not empty, year by year:
    the observed index [A] and the climate [B] of the paired stack, the
    single fit of [A] on [B], and the residuals. *)
Lemma stages_closed_form modis clim ys ye st :
  stages modis clim ys ye = Ok st -> ys < ye ->
  exists (A B : Z -> pixel),
    (forall obs, select_coll (ndvi_1yr_o st) ["ndvi"] = Ok obs ->
                 Forall one_band obs /\ map value obs = map A (pyrange ys ye))
    /\ bands (lf_clim_ndvi st)
       = [("scale", fst (linearFit_px (fit_pairs B A (pyrange ys ye))));
          ("offset", snd (linearFit_px (fit_pairs B A (pyrange ys ye))))]
    /\ map bands (ndvi_1yr_r st)
       = map (fun k => [("year", year_px k);
                        ("ndvi_res",
                         residual A B
                           (fst (linearFit_px (fit_pairs B A (pyrange ys ye))))
                           (snd (linearFit_px (fit_pairs B A (pyrange ys ye)))) k)])
             (pyrange ys ye).
Proof.
  intros Hst Hne.
  destruct (stages_inv _ _ _ _ _ Hst)
    as [m [xy [cl [_ [Ho [_ [Hs [Hxy [Hlf [Hcl [Hp Hr]]]]]]]]]]].
  destruct st as [o c coll lf p r].
  cbn [ndvi_1yr_o clim_1yr_o coll_1yr_o lf_clim_ndvi ndvi_1yr_p ndvi_1yr_r] in *.
  set (range := pyrange ys ye) in *.
  (* the annual index layers *)
  rewrite int_16d_1yr_o_mapM in Ho. fold range in Ho.
  apply (mapM_map no_image) in Ho as [Ho HFo].
  set (Fo := fun k => unwrap no_image (int_16d_step m k)) in *.
  assert (HFo' : forall k, In k range ->
            year (Fo k) = Some k /\
            exists a, bands (Fo k) = [("ndvi", a); ("year", year_px k)]).
  { intros k Hk. apply (int_16d_step_shape m). apply HFo. exact Hk. }
  assert (Hok : forall k, In k range -> filter_year o k = [Fo k]).
  { intros k Hk. rewrite Ho. apply filter_year_map; [apply pyrange_NoDup| |exact Hk].
    intros j Hj. apply (HFo' j Hj). }
  (* the paired stack *)
  rewrite stack_mapM in Hs. fold range in Hs.
  apply (mapM_map no_image) in Hs as [Hcoll HF].
  set (F := fun k => unwrap no_image (stack_step o c k)) in *.
  set (A := fun k => band_px "ndvi" (Fo k)).
  set (B := fun k => band_px "clim" (F k)).
  assert (HF' : forall k, In k range ->
            year (F k) = Some k /\
            bands (F k) = [("ndvi", A k); ("clim", B k); ("year", year_px k)]).
  { intros k Hk. destruct (stack_step_ndvi o c k _ _ (Hok k Hk) (HF k Hk)) as [Hy [b Hb]].
    change (unwrap no_image (stack_step o c k)) with (F k) in Hy, Hb.
    split; [exact Hy|]. unfold A, B, band_px at 2. rewrite Hb. reflexivity. }
  exists A, B.
  set (so := linearFit_px (fit_pairs B A range)).
  split; [|split].
  - (* the observed series *)
    intros obs Hobs. split; [exact (select_coll_one_band _ _ _ Hobs)|].
    unfold select_coll in Hobs. apply (mapM_map no_image) in Hobs as [-> Hsel].
    rewrite Ho, !map_map. apply map_ext_in. intros k Hk.
    destruct (HFo' k Hk) as [_ [a Ha]].
    assert (Hs1 : select (Fo k) ["ndvi"]
                  = Ok (mkImage [("ndvi", a)] (year (Fo k)) (time_start (Fo k)))).
    { apply select_one. rewrite Ha. reflexivity. }
    rewrite Hs1. unfold A, band_px. rewrite Ha. reflexivity.
  - (* the fit *)
    unfold select_coll in Hxy. apply (mapM_map no_image) in Hxy as [Hxy _].
    rewrite Hcoll, map_map in Hxy.
    assert (Hpairs : xy_pairs xy = fit_pairs B A range).
    { rewrite Hxy. apply xy_pairs_map. intros k Hk.
      destruct (HF' k Hk) as [_ Hb].
      unfold select. cbn [mapM]. rewrite Hb. cbn. eexists. eexists. reflexivity. }
    rewrite Hlf. unfold reduce_linearFit. rewrite Hpairs. fold so.
    destruct xy as [|x xy'].
    + exfalso. apply (f_equal (@length _)) in Hxy.
      rewrite length_map in Hxy. unfold range in Hxy. rewrite pyrange_length in Hxy.
      cbn in Hxy. lia.
    + destruct so as [s0 o0]. reflexivity.
  - (* the residuals *)
    assert (Hlfb : bands lf = [("scale", fst so); ("offset", snd so)]).
    { unfold select_coll in Hxy. apply (mapM_map no_image) in Hxy as [Hxy _].
      rewrite Hcoll, map_map in Hxy.
      assert (Hpairs : xy_pairs xy = fit_pairs B A range).
      { rewrite Hxy. apply xy_pairs_map. intros k Hk.
        destruct (HF' k Hk) as [_ Hb].
        unfold select. cbn [mapM]. rewrite Hb. cbn. eexists. eexists. reflexivity. }
      rewrite Hlf. unfold reduce_linearFit. rewrite Hpairs. fold so.
      destruct xy as [|x xy'].
      + exfalso. apply (f_equal (@length _)) in Hxy.
        rewrite length_map in Hxy. unfold range in Hxy. rewrite pyrange_length in Hxy.
        cbn in Hxy. lia.
      + destruct so as [s0 o0]. reflexivity. }
    unfold select_coll in Hcl. apply (mapM_map no_image) in Hcl as [Hcl _].
    set (G := fun x => unwrap no_image (select x ["clim"])) in *.
    assert (HGF : forall k, In k range ->
              year (G (F k)) = Some k /\ bands (G (F k)) = [("clim", B k)]).
    { intros k Hk. destruct (HF' k Hk) as [Hyk Hbk].
      assert (Hsel : select (F k) ["clim"]
                     = Ok (mkImage [("clim", B k)] (year (F k)) (time_start (F k)))).
      { apply select_one. rewrite Hbk. reflexivity. }
      unfold G. rewrite Hsel. cbn [unwrap year bands]. split; [exact Hyk|reflexivity]. }
    rewrite iterate_mapM in Hp. apply (mapM_map no_image) in Hp as [Hp _].
    assert (HH : forall img,
              unwrap no_image (predict_step lf img)
              = set_year (add (mkImage [("offset", snd so)] (year lf) (time_start lf))
                              (multiply (mkImage [("scale", fst so)] (year lf) (time_start lf))
                                        img))
                         (year img)).
    { intros img. unfold predict_step.
      rewrite (select_one _ "offset" (snd so)) by (rewrite Hlfb; reflexivity).
      rewrite (select_one _ "scale" (fst so)) by (rewrite Hlfb; reflexivity).
      reflexivity. }
    set (P := fun k => set_year
                         (add (mkImage [("offset", snd so)] (year lf) (time_start lf))
                              (multiply (mkImage [("scale", fst so)] (year lf) (time_start lf))
                                        (G (F k))))
                         (year (G (F k)))).
    assert (Hp' : p = map P range).
    { rewrite Hp, Hcl, Hcoll, !map_map. apply map_ext. intros k. apply HH. }
    rewrite ndvi_clim_r_coll_mapM in Hr. fold range in Hr.
    apply (mapM_map no_image) in Hr as [Hr HR].
    rewrite Hr, map_map. apply map_ext_in. intros k Hk.
    specialize (HR k Hk).
    destruct (ndvi_clim_r_img coll p k) as [res|e] eqn:Hres; [|discriminate HR].
    cbn [unwrap].
    assert (Hpy : filter_year p k = [P k]).
    { rewrite Hp'. apply filter_year_map; [apply pyrange_NoDup| |exact Hk].
      intros j Hj. unfold P. cbn [set_year year]. apply (HGF j Hj). }
    assert (Hcy : filter_year coll k = [F k]).
    { rewrite Hcoll. apply filter_year_map; [apply pyrange_NoDup| |exact Hk].
      intros j Hj. apply (HF' j Hj). }
    destruct (HF' k Hk) as [_ HbF]. destruct (HGF k Hk) as [_ HbG].
    assert (HbP : bands (P k)
                  = [("offset", lift2 qadd (snd so) (lift2 qmul (fst so) (B k)))]).
    { unfold P, set_year, add, multiply, binop. cbn [bands]. rewrite HbG. reflexivity. }
    unfold ndvi_clim_r_img in Hres. rewrite Hcy, Hpy in Hres.
    unfold select_coll in Hres. cbn [mapM] in Hres.
    rewrite (select_one (F k) "ndvi" (A k)) in Hres by (rewrite HbF; reflexivity).
    cbn [bind] in Hres.
    unfold rename, addBands, subtract, binop, constant in Hres.
    cbn [bands year time_start] in Hres.
    rewrite (median_single_bands _ "ndvi" (A k)) in Hres by reflexivity.
    rewrite (median_single_bands _ _ _ HbP) in Hres.
    cbn in Hres. inversion Hres. reflexivity.
Qed.

Lemma Qred_eq_zero (q : Q) : (q == 0)%Q -> Qred q = 0%Q.
Proof. intros H. apply (Qred_complete q 0 H). Qed.

(** A fit through two points is exact: both residuals are zero. *)
Lemma exact_fit_two (x1 y1 x2 y2 ss oo : Q) :
  linearFit_px [(x1, y1); (x2, y2)] = (Some ss, Some oo) ->
  qsub y1 (qadd oo (qmul ss x1)) = 0%Q /\ qsub y2 (qadd oo (qmul ss x2)) = 0%Q.
Proof.
  unfold linearFit_px. cbn [length map fst snd Nat.ltb Nat.leb orb].
  destruct (Qeq_bool _ 0) eqn:Ed; [discriminate|].
  intros H. inversion H as [[Hs Ho]]. clear H.
  apply Qeq_bool_neq in Ed.
  unfold qsum, qsub, qadd, qmul, qdiv in *. cbn [fold_left] in *.
  rewrite !Qred_correct in Ed.
  change (inject_Z (Z.of_nat 2)) with 2%Q in Ed.
  split; apply Qred_eq_zero; rewrite !Qred_correct;
    change (inject_Z 2) with 2%Q; field;
    intros Hc; apply Ed; (etransitivity; [|exact Hc]); ring.
Qed.

(** With no valid observation but zeros the fitted slope is zero, when
    there is one. *)
Lemma qsum_zeros (l : list Q) : (forall v, In v l -> v = 0%Q) -> qsum l = 0%Q.
Proof.
  unfold qsum. induction l as [|v l IH]; intros H; [reflexivity|].
  cbn [fold_left]. rewrite (H v (or_introl eq_refl)).
  change (qadd 0 0) with 0%Q. apply IH. intros w Hw. apply H. right. exact Hw.
Qed.

Lemma qmul_zero_r (x : Q) : qmul x 0 = 0%Q.
Proof. unfold qmul. apply Qred_eq_zero. ring. Qed.

Lemma linearFit_zero (ps : list (Q * Q)) :
  (forall p, In p ps -> snd p = 0%Q) ->
  fst (linearFit_px ps) = None \/ fst (linearFit_px ps) = Some 0%Q.
Proof.
  intros H. unfold linearFit_px.
  destruct ((length ps <? 2)%nat || Qeq_bool _ 0); [left; reflexivity|].
  right. cbn [fst]. f_equal.
  assert (Hsy : qsum (map snd ps) = 0%Q).
  { apply qsum_zeros. intros v Hv. apply in_map_iff in Hv as [p [<- Hp]].
    apply H. exact Hp. }
  assert (Hsxy : qsum (map (fun p => qmul (fst p) (snd p)) ps) = 0%Q).
  { apply qsum_zeros. intros v Hv. apply in_map_iff in Hv as [p [<- Hp]].
    rewrite (H p Hp). apply qmul_zero_r. }
  rewrite Hsy, Hsxy, !qmul_zero_r.
  change (qsub 0 0) with 0%Q. unfold qdiv. apply Qred_eq_zero.
  unfold Qdiv. ring.
Qed.

(** ** Few valid years *)

Lemma valid_px_app (a b : list pixel) : valid_px (a ++ b) = valid_px a ++ valid_px b.
Proof. unfold valid_px. apply flat_map_app. Qed.

Lemma valid_pairs_app (a b : list (pixel * pixel)) :
  valid_pairs (a ++ b) = valid_pairs a ++ valid_pairs b.
Proof. unfold valid_pairs. apply flat_map_app. Qed.

Lemma valid_pairs_with (x : Q) (r : list pixel) :
  valid_pairs (map (pair (Some x)) r) = map (pair x) (valid_px r).
Proof.
  unfold valid_pairs, valid_px. induction r as [|p r IH]; [reflexivity|].
  cbn [map flat_map]. rewrite IH. destruct p; reflexivity.
Qed.

(** Without a valid pair there is at most one valid pixel. *)
Lemma no_valid_pair (ps : list pixel) :
  valid_pairs (all_pairs ps) = [] -> (length (valid_px ps) <= 1)%nat.
Proof.
  induction ps as [|p r IH]; [intros _; cbn; lia|].
  cbn [all_pairs]. rewrite valid_pairs_app. intros H.
  apply app_eq_nil in H as [H1 H2]. specialize (IH H2).
  destruct p as [x|].
  - rewrite valid_pairs_with in H1. apply map_eq_nil in H1.
    change (valid_px (Some x :: r)) with (x :: valid_px r). rewrite H1. cbn. lia.
  - exact IH.
Qed.

Lemma valid_px_removelast (ps : list pixel) :
  (length (valid_px ps) <= S (length (valid_px (removelast ps))))%nat.
Proof.
  destruct ps as [|p r]; [cbn; lia|].
  rewrite (app_removelast_last None (l := p :: r)) at 1 by discriminate.
  rewrite valid_px_app, length_app.
  destruct (last (p :: r) None); cbn [valid_px flat_map length app]; lia.
Qed.

Lemma fit_pairs_length (X Y : Z -> pixel) (l : list Z) :
  (length (fit_pairs X Y l) <= length (valid_px (map Y l)))%nat.
Proof.
  unfold fit_pairs, valid_px. induction l as [|k l IH]; [apply le_n|].
  cbn [map flat_map]. rewrite !length_app.
  destruct (X k), (Y k); cbn [length]; lia.
Qed.

Lemma fit_pairs_in (X Y : Z -> pixel) (l : list Z) (k : Z) (x y : Q) :
  In k l -> X k = Some x -> Y k = Some y -> In (x, y) (fit_pairs X Y l).
Proof.
  intros Hk Hx Hy. unfold fit_pairs. apply in_flat_map. exists k.
  split; [exact Hk|]. rewrite Hx, Hy. left. reflexivity.
Qed.

Lemma fit_pairs_inv (X Y : Z -> pixel) (l : list Z) (p : Q * Q) :
  In p (fit_pairs X Y l) -> exists k, In k l /\ X k = Some (fst p) /\ Y k = Some (snd p).
Proof.
  unfold fit_pairs. intros H. apply in_flat_map in H as [k [Hk Hp]].
  exists k. split; [exact Hk|].
  destruct (X k) as [x|], (Y k) as [y|]; cbn [In] in Hp; try contradiction.
  destruct Hp as [<-|[]]. split; reflexivity.
Qed.

Lemma linearFit_valid (ps : list (Q * Q)) (ss oo : Q) :
  linearFit_px ps = (Some ss, Some oo) -> (2 <= length ps)%nat.
Proof.
  unfold linearFit_px. destruct (Nat.ltb_spec (length ps) 2) as [|H].
  - cbn [orb]. discriminate.
  - intros _. exact H.
Qed.

Lemma linearFit_both (ps : list (Q * Q)) :
  linearFit_px ps = (None, None)
  \/ exists ss oo, linearFit_px ps = (Some ss, Some oo).
Proof.
  unfold linearFit_px. destruct (_ || _); [left; reflexivity|].
  right. eexists. eexists. reflexivity.
Qed.

(** When at most two years have a valid index, every valid residual is
    zero: the fit of the index on the climate goes through its points. *)
Lemma residuals_zero (A B : Z -> pixel) (l : list Z) :
  (length (valid_px (map A l)) <= 2)%nat ->
  forall p,
    In p (fit_pairs year_px
            (residual A B (fst (linearFit_px (fit_pairs B A l)))
                          (snd (linearFit_px (fit_pairs B A l)))) l) ->
    snd p = 0%Q.
Proof.
  intros Hfew p Hp. apply fit_pairs_inv in Hp as [k [Hk [_ Hres]]].
  unfold residual in Hres.
  pose proof (fit_pairs_length B A l) as Hlen.
  destruct (linearFit_both (fit_pairs B A l)) as [Hnone|[ss [oo Hsome]]].
  - rewrite Hnone in Hres. cbn [fst snd lift2] in Hres.
    destruct (A k); discriminate Hres.
  - rewrite Hsome in Hres. cbn [fst snd] in Hres.
    destruct (A k) as [y|] eqn:HA; [|discriminate Hres].
    destruct (B k) as [x|] eqn:HB; [|discriminate Hres].
    cbn [lift2] in Hres. inversion Hres as [Hv].
    pose proof (linearFit_valid _ _ _ Hsome) as Hge.
    pose proof (fit_pairs_in B A l k x y Hk HB HA) as Hin.
    destruct (fit_pairs B A l) as [|[x1 y1] [|[x2 y2] [|p3 rest]]];
      cbn [length] in *; try lia.
    destruct (exact_fit_two _ _ _ _ _ _ Hsome) as [H1 H2].
    destruct Hin as [Hin|[Hin|[]]]; inversion Hin; subst; assumption.
Qed.

(** ** The fit of the residuals *)

Lemma xy_pairs_bands (c c' : ImageCollection) :
  map bands c = map bands c' -> xy_pairs c = xy_pairs c'.
Proof.
  revert c'. induction c as [|img c IH]; intros [|img' c'] H; try discriminate;
    [reflexivity|].
  cbn [map] in H. inversion H as [[Hb Hrest]].
  unfold xy_pairs. cbn [flat_map]. rewrite Hb. f_equal. apply IH. exact Hrest.
Qed.

Lemma select_same_bands (Y1 Y2 : Z -> pixel) (r : ImageCollection) :
  forall (l : list Z) (ty : ImageCollection),
    map bands r = map (fun k => [("year", Y1 k); ("ndvi_res", Y2 k)]) l ->
    select_coll r ["year"; "ndvi_res"] = Ok ty ->
    map bands ty = map bands r.
Proof.
  unfold select_coll.
  induction r as [|img r IH]; intros [|k l] ty Hb Hsel; try discriminate.
  - cbn in Hsel. inversion Hsel. reflexivity.
  - cbn [map] in Hb. inversion Hb as [[Himg Hrest]].
    cbn [mapM] in Hsel.
    assert (Hs : select img ["year"; "ndvi_res"]
                 = Ok (mkImage [("year", Y1 k); ("ndvi_res", Y2 k)]
                               (year img) (time_start img))).
    { unfold select. rewrite Himg. reflexivity. }
    rewrite Hs in Hsel. cbn [bind] in Hsel.
    destruct (mapM (fun i => select i ["year"; "ndvi_res"]) r) as [ty'|] eqn:E;
      cbn [bind] in Hsel; [|discriminate].
    inversion Hsel. cbn [map bands]. rewrite Himg. f_equal.
    apply (IH l ty' Hrest eq_refl).
Qed.

Lemma xy_pairs_fit_pairs (Y1 Y2 : Z -> pixel) (c : ImageCollection) (l : list Z) :
  map bands c = map (fun k => [("year", Y1 k); ("ndvi_res", Y2 k)]) l ->
  xy_pairs c = fit_pairs Y1 Y2 l.
Proof.
  revert l. induction c as [|img c IH]; intros [|k l] H; try discriminate;
    [reflexivity|].
  cbn [map] in H. inversion H as [[Hb Hrest]].
  unfold xy_pairs, fit_pairs. cbn [flat_map]. rewrite Hb.
  fold (xy_pairs c). fold (fit_pairs Y1 Y2 l). rewrite (IH l Hrest).
  destruct (Y1 k), (Y2 k); reflexivity.
Qed.

(** The slope and the offset of the fit of the residuals on the year. *)
Lemma lf_prest_closed_form (Y1 Y2 : Z -> pixel) (r ty : ImageCollection) (l : list Z) :
  l <> [] ->
  map bands r = map (fun k => [("year", Y1 k); ("ndvi_res", Y2 k)]) l ->
  select_coll r ["year"; "ndvi_res"] = Ok ty ->
  bands (reduce_linearFit ty)
  = [("scale", fst (linearFit_px (fit_pairs Y1 Y2 l)));
     ("offset", snd (linearFit_px (fit_pairs Y1 Y2 l)))].
Proof.
  intros Hne Hb Hsel.
  pose proof (select_same_bands Y1 Y2 r l ty Hb Hsel) as Hty.
  rewrite Hb in Hty.
  unfold reduce_linearFit. rewrite (xy_pairs_fit_pairs Y1 Y2 ty l Hty).
  destruct ty as [|t ty'].
  - destruct l; [contradiction|discriminate].
  - destruct (linearFit_px (fit_pairs Y1 Y2 l)). reflexivity.
Qed.

(** The exported pixel, from the slope and the vegetation statistic. *)
Lemma export_image_pixel (lf mk : Image) (K : Z) (s o : pixel) :
  bands lf = [("scale", s); ("offset", o)] ->
  export_image lf mk K
  = Ok (mkImage [("scale", export_px s (value mk) K)] (year lf) (time_start lf)).
Proof.
  intros Hb. unfold export_image.
  rewrite (select_one lf "scale" s) by (rewrite Hb; reflexivity). cbn [bind].
  rewrite !where_single, unmask_single, !band_at_lte_abs. reflexivity.
Qed.

Lemma export_px_zero_slope (s : pixel) (K : Z) :
  s = None \/ s = Some 0%Q -> export_px s None K = Some nodata.
Proof. intros [->| ->]; reflexivity. Qed.

Lemma export_px_not_significant (s : pixel) (v : Q) (K : Z) :
  (Qabs v <= inject_Z K)%Q -> export_px s (Some v) K = Some nodata.
Proof.
  intros Hv. unfold export_px. cbn [lift1 lift2 option_map]. unfold qabs.
  rewrite (qlte_true _ _ Hv).
  destruct s as [x|]; cbn; [|reflexivity].
  destruct (Qeq_bool (qlte (Qabs x) (1 # 1000000)) 0); reflexivity.
Qed.

(** A pixel that is exported with another value than the sentinel is the
    slope, the slope is not negligible, and the statistic is masked or
    beyond the critical value. *)
Lemma export_px_kept (s m : pixel) (K : Z) (v : Q) :
  export_px s m K = Some v -> v <> nodata ->
  s = Some v
  /\ ~ (Qabs v <= 1 # 1000000)%Q
  /\ (m = None \/ exists S, m = Some S /\ ~ (Qabs S <= inject_Z K)%Q).
Proof.
  unfold export_px. intros H Hv.
  destruct s as [x|]; [|cbn in H; inversion H; congruence].
  destruct (Qle_decide (Qabs x) (1 # 1000000)) as [Hx|Hx].
  - exfalso. cbn [lift1 lift2 option_map] in H.
    change (qabs x) with (Qabs x) in H. rewrite (qlte_true _ _ Hx) in H.
    destruct m as [S|]; cbn [lift1 lift2 option_map where_px] in H.
    + destruct (Qeq_bool (qlte (qabs S) (inject_Z K)) 0); cbn in H;
        inversion H; congruence.
    + cbn in H. inversion H; congruence.
  - cbn [lift1 lift2 option_map] in H.
    change (qabs x) with (Qabs x) in H. rewrite (qlte_false _ _ Hx) in H.
    destruct m as [S|]; cbn [lift1 lift2 option_map where_px] in H.
    + change (qabs S) with (Qabs S) in H.
      destruct (Qle_decide (Qabs S) (inject_Z K)) as [HS|HS].
      * rewrite (qlte_true _ _ HS) in H. cbn in H. inversion H. congruence.
      * rewrite (qlte_false _ _ HS) in H. cbn in H. inversion H. subst v.
        split; [reflexivity|]. split; [exact Hx|]. right. exists S. split; [reflexivity|exact HS].
    + cbn in H. inversion H. subst v.
      split; [reflexivity|]. split; [exact Hx|]. left. reflexivity.
Qed.

(** When the statistic of the observed index is masked, the slope of the
    residuals is masked or zero. *)
Lemma masked_zero_slope (A B : Z -> pixel) (l : list Z) :
  S_pixel (removelast (map A l)) = None ->
  slope A B l = None \/ slope A B l = Some 0%Q.
Proof.
  intros HS. unfold slope. apply linearFit_zero. apply residuals_zero.
  unfold S_pixel in HS. cbv zeta in HS.
  destruct (valid_pairs (all_pairs (removelast (map A l)))) eqn:E; [|discriminate HS].
  pose proof (no_valid_pair _ E). pose proof (valid_px_removelast (map A l)). lia.
Qed.

(** ** The exported pixel of a run *)

Lemma Qabs_inject_Z_le (z K : Z) :
  Z.abs z <= K -> (Qabs (inject_Z z) <= inject_Z K)%Q.
Proof.
  intros H. change (Qabs (inject_Z z)) with (inject_Z (Z.abs z)).
  rewrite <- Zle_Qle. exact H.
Qed.

(** A successful run, at one pixel: the statistic is that of the yearly
    index [A] without its last year, the second fit is that of the
    residuals of [A] against the climate [B], and the exported pixel is
    [export_px] of the two. *)
Lemma restrend_pointwise_closed_form modis clim ys ye geojson id e :
  restrend_pointwise modis clim ys ye geojson id = Ok e ->
  exists st ty obs mk K (A B : Z -> pixel),
    stages modis clim ys ye = Ok st
    /\ select_coll (ndvi_1yr_r st) ["year"; "ndvi_res"] = Ok ty
    /\ select_coll (ndvi_1yr_o st) ["ndvi"] = Ok obs
    /\ mann_kendall_stat obs = Ok mk
    /\ kendall (period ys ye) = Ok K
    /\ 4 <= period ys ye <= 40
    /\ value mk = S_pixel (removelast (map A (pyrange ys ye)))
    /\ band_px "scale" (reduce_linearFit ty) = slope A B (pyrange ys ye)
    /\ bands (image e)
       = [("scale", export_px (slope A B (pyrange ys ye)) (value mk) K)].
Proof.
  intros H.
  destruct (restrend_pointwise_inv _ _ _ _ _ _ _ H)
    as [st [ty [K [obs [mk [_ [Hst [Hty [HK [Hobs [Hmk [Hexp _]]]]]]]]]]]].
  assert (Hper : 4 <= period ys ye <= 40).
  { pose proof HK as HK'. unfold kendall in HK'.
    apply array_get_inv in HK' as [Hlow Hnth].
    assert (Hhigh : (Z.to_nat (period ys ye - 4) < length coefficients)%nat).
    { apply nth_error_Some. congruence. }
    rewrite coefficients_length in Hhigh. lia. }
  assert (Hlt : ys < ye) by (unfold period in Hper; lia).
  destruct (stages_closed_form _ _ _ _ _ Hst Hlt) as [A [B [HA [_ Hres]]]].
  destruct (HA obs Hobs) as [Hone Hval].
  assert (Hlen : length obs = Z.to_nat (ye - ys)).
  { rewrite <- (length_map value obs), Hval, length_map. apply pyrange_length. }
  assert (Hfirst : firstn 50 obs = obs).
  { apply firstn_all2. unfold period in Hper. lia. }
  destruct (mann_kendall_stat_one_band obs Hone) as [mk' [Hmk' [_ Hvmk]]].
  { rewrite Hfirst. unfold period in Hper. lia. }
  rewrite Hmk in Hmk'. injection Hmk' as <-.
  rewrite firstn_map, Hfirst, Hval in Hvmk.
  assert (Hne : pyrange ys ye <> []).
  { intros E. pose proof (pyrange_length ys ye) as L. rewrite E in L. cbn in L. lia. }
  pose proof (lf_prest_closed_form _ _ _ _ _ Hne Hres Hty) as Hlf.
  exists st, ty, obs, mk, K, A, B.
  repeat (split; [assumption|]).
  split; [unfold band_px; rewrite Hlf; reflexivity|].
  rewrite (export_image_pixel _ _ _ _ _ Hlf) in Hexp.
  injection Hexp as <-. reflexivity.
Qed.

(** Where the vegetation statistic of the run is masked, the run exports
    the sentinel: at most two years of the index are valid there, the fit
    on the climate is then exact or absent, and the residuals have no
    slope. *)
Theorem masked_statistic_exports_nodata modis clim ys ye geojson id e st obs mk
        (H : restrend_pointwise modis clim ys ye geojson id = Ok e)
        (Hst : stages modis clim ys ye = Ok st)
        (Hobs : select_coll (ndvi_1yr_o st) ["ndvi"] = Ok obs)
        (Hmk : mann_kendall_stat obs = Ok mk)
        (Hv : value mk = None) :
  bands (image e) = [("scale", Some nodata)].
Proof.
  destruct (restrend_pointwise_closed_form _ _ _ _ _ _ _ H)
    as [st' [ty [obs' [mk' [K [A [B [Hst' [_ [Hobs' [Hmk' [_ [_ [HS [_ Hb]]]]]]]]]]]]]]].
  rewrite Hst in Hst'. injection Hst' as <-.
  rewrite Hobs in Hobs'. injection Hobs' as <-.
  rewrite Hmk in Hmk'. injection Hmk' as <-.
  rewrite Hb, Hv. rewrite Hv in HS. symmetry in HS.
  rewrite (export_px_zero_slope _ K (masked_zero_slope A B _ HS)). reflexivity.
Qed.

Lemma masked_statistic_exports_nodata_witness :
  exists e, restrend_pointwise modis_two_valid clim_ex 2003 2008 aoi "run" = Ok e
            /\ bands (image e) = [("scale", Some nodata)].
Proof.
  destruct (restrend_pointwise modis_two_valid clim_ex 2003 2008 aoi "run")
    as [e|err] eqn:E; [|exfalso; vm_compute in E; discriminate E].
  destruct (stages modis_two_valid clim_ex 2003 2008)
    as [st|err] eqn:Hst; [|exfalso; vm_compute in Hst; discriminate Hst].
  destruct (select_coll (ndvi_1yr_o st) ["ndvi"]) as [obs|err] eqn:Hobs.
  2: { exfalso. vm_compute in Hst. injection Hst as <-.
       vm_compute in Hobs. discriminate Hobs. }
  destruct (mann_kendall_stat obs) as [mk|err] eqn:Hmk.
  2: { exfalso. vm_compute in Hst. injection Hst as <-.
       vm_compute in Hobs. injection Hobs as <-.
       vm_compute in Hmk. discriminate Hmk. }
  exists e. split; [reflexivity|].
  apply (masked_statistic_exports_nodata _ _ _ _ _ _ e st obs mk E Hst Hobs Hmk).
  vm_compute in Hst. injection Hst as <-.
  vm_compute in Hobs. injection Hobs as <-.
  vm_compute in Hmk. injection Hmk as <-. reflexivity.
Defined.

(** A run over a period of at most seven years exports the sentinel at
    every pixel: the statistic compares all but the last year, so its
    absolute value is at most 1, 3, 6 and 10 for the periods 4 to 7,
    never above the critical values 4, 6, 9 and 11. *)
Theorem short_period_exports_nodata modis clim ys ye geojson id e
        (H : restrend_pointwise modis clim ys ye geojson id = Ok e)
        (Hp : period ys ye <= 7) :
  bands (image e) = [("scale", Some nodata)].
Proof.
  destruct (restrend_pointwise_closed_form _ _ _ _ _ _ _ H)
    as [st [ty [obs [mk [K [A [B [_ [_ [_ [_ [HK [Hper [HS [_ Hb]]]]]]]]]]]]]]].
  rewrite Hb. destruct (value mk) as [v|] eqn:Hv.
  - symmetry in HS. destruct (S_pixel_bound _ _ HS) as [z [-> Hz]].
    rewrite export_px_not_significant; [reflexivity|].
    apply Qabs_inject_Z_le.
    assert (Hlen : length (removelast (map A (pyrange ys ye)))
                   = Z.to_nat (period ys ye - 2)).
    { rewrite removelast_firstn_len, length_firstn, length_map, pyrange_length.
      unfold period in *. lia. }
    rewrite Hlen in Hz.
    assert (Hc : period ys ye = 4 \/ period ys ye = 5
                 \/ period ys ye = 6 \/ period ys ye = 7) by lia.
    destruct Hc as [Hc|[Hc|[Hc|Hc]]]; rewrite Hc in HK, Hz;
      vm_compute in HK; injection HK as <-;
      change (Z.of_nat (Z.to_nat (4 - 2))) with 2 in Hz;
      change (Z.of_nat (Z.to_nat (5 - 2))) with 3 in Hz;
      change (Z.of_nat (Z.to_nat (6 - 2))) with 4 in Hz;
      change (Z.of_nat (Z.to_nat (7 - 2))) with 5 in Hz; lia.
  - symmetry in HS.
    rewrite (export_px_zero_slope _ K (masked_zero_slope A B _ HS)). reflexivity.
Qed.

Lemma short_period_exports_nodata_witness :
  period 2003 2009 <= 7
  /\ exists e, restrend_pointwise modis_ex clim_ex 2003 2009 aoi "run" = Ok e
               /\ bands (image e) = [("scale", Some nodata)].
Proof.
  split; [vm_compute; discriminate|].
  destruct (restrend_pointwise modis_ex clim_ex 2003 2009 aoi "run")
    as [e|err] eqn:E; [|exfalso; vm_compute in E; discriminate E].
  exists e. split; [reflexivity|].
  apply (short_period_exports_nodata _ _ _ _ _ _ e E). vm_compute. discriminate.
Defined.

(** A pixel exported with another value than the sentinel carries the
    slope of the residual fit; the vegetation statistic is valid there and
    beyond the critical value, and the slope is beyond 0.000001. *)
Theorem kept_slope_is_significant modis clim ys ye geojson id e v
        (H : restrend_pointwise modis clim ys ye geojson id = Ok e)
        (Hb : bands (image e) = [("scale", Some v)])
        (Hv : v <> nodata) :
  exists st ty obs mk S K,
    stages modis clim ys ye = Ok st
    /\ select_coll (ndvi_1yr_r st) ["year"; "ndvi_res"] = Ok ty
    /\ band_px "scale" (reduce_linearFit ty) = Some v
    /\ select_coll (ndvi_1yr_o st) ["ndvi"] = Ok obs
    /\ mann_kendall_stat obs = Ok mk
    /\ value mk = Some S
    /\ kendall (period ys ye) = Ok K
    /\ ~ (Qabs S <= inject_Z K)%Q
    /\ ~ (Qabs v <= 1 # 1000000)%Q.
Proof.
  destruct (restrend_pointwise_closed_form _ _ _ _ _ _ _ H)
    as [st [ty [obs [mk [K [A [B [Hst [Hty [Hobs [Hmk [HK [_ [HS [Hsl Hb']]]]]]]]]]]]]]].
  rewrite Hb' in Hb. injection Hb as Hb.
  destruct (export_px_kept _ _ _ _ Hb Hv) as [Hs [Hnz Hm]].
  destruct Hm as [Hm|[S [Hm HSK]]].
  - exfalso. rewrite Hm in HS. symmetry in HS.
    destruct (masked_zero_slope A B _ HS) as [H0|H0]; rewrite H0 in Hs.
    + discriminate Hs.
    + injection Hs as <-. apply Hnz. cbn. discriminate.
  - exists st, ty, obs, mk, S, K. rewrite Hsl.
    repeat (split; [assumption|]). exact Hnz.
Qed.

Lemma kept_slope_is_significant_witness :
  exists st ty obs mk S K,
    stages modis_ex clim_ex 2003 2015 = Ok st
    /\ select_coll (ndvi_1yr_r st) ["year"; "ndvi_res"] = Ok ty
    /\ band_px "scale" (reduce_linearFit ty) = Some (203 # 20306)
    /\ select_coll (ndvi_1yr_o st) ["ndvi"] = Ok obs
    /\ mann_kendall_stat obs = Ok mk
    /\ value mk = Some S
    /\ kendall (period 2003 2015) = Ok K
    /\ ~ (Qabs S <= inject_Z K)%Q
    /\ ~ (Qabs (203 # 20306) <= 1 # 1000000)%Q.
Proof.
  destruct (restrend_pointwise modis_ex clim_ex 2003 2015 aoi "run")
    as [e|err] eqn:E; [|exfalso; vm_compute in E; discriminate E].
  apply (kept_slope_is_significant _ _ _ _ _ _ e (203 # 20306) E).
  - vm_compute in E. injection E as <-. reflexivity.
  - discriminate.
Defined.

(** ** The unfinished entry point *)

(** [ndvi_annual_integral] never starts a task: on every area that
    [restrend_pointwise] accepts it returns [None], whatever the years. *)
Theorem ndvi_annual_integral_returns_None modis clim ys ye ys' ye' geojson id e
        (H : restrend_pointwise modis clim ys ye geojson id = Ok e) :
  ndvi_annual_integral ys' ye' geojson = Ok None.
Proof.
  destruct (restrend_pointwise_inv _ _ _ _ _ _ _ H)
    as [st [ty [K [obs [mk [Hc _]]]]]].
  unfold ndvi_annual_integral. rewrite Hc. reflexivity.
Qed.

Lemma ndvi_annual_integral_returns_None_witness :
  ndvi_annual_integral 2015 2003 aoi = Ok None.
Proof.
  destruct (restrend_pointwise modis_ex clim_ex 2003 2015 aoi "run")
    as [e|err] eqn:E; [|exfalso; vm_compute in E; discriminate E].
  exact (ndvi_annual_integral_returns_None _ _ _ _ 2015 2003 _ _ e E).
Defined.
